(** * Particle-filter localisation: a shallow embedding of [src/particle_filter.cpp]

    The C++ program keeps a population of weighted pose hypotheses and runs
    the cycle predict / weight / resample-if-degenerate / estimate.  Every
    member function of [Robot] and [ParticleFilter] that the verified
    properties mention is transcribed below, statement by statement.

    Conventions of the embedding.
    - A C++ [float] has two readings.  In the idealised reading it is a real
      number: arithmetic is exact, rounding, infinities and NaN are not
      represented; [cos], [sin], [exp], [sqrt] are the functions of the
      Reals library; [fmod] and [atan2] are defined from their C library
      specification.  This reading carries the properties of structure: how
      often a loop runs, what is read and written, which draw goes where,
      which branch is taken at values far from a rounding boundary.  In the
      binary32 reading (module [Binary32]) a [float] is an IEEE 754 single,
      every operation rounds to nearest even, and infinities and NaN exist;
      the properties that rounding decides are stated in that reading.
    - [int] is [Z], [size_t] and vector positions are [nat], a [std::vector]
      is a [list].
    - A member call returns normally, throws, or has undefined behaviour (an
      unchecked [operator[]] out of range): the [outcome] type.  A loop that
      touches no member yields [None] for the undefined read.
    - The pseudo-random generator [gen_] is the sequence of variates it is
      going to deliver, with a cursor. *)

From Stdlib Require Import Reals List ZArith Lia Lra SpecFloat.
Import ListNotations.
Local Open Scope R_scope.

(** ** Outcomes of a call *)

(** Modelled from the spec: the failures of the error taxonomy, section 7.
    The source contains no [throw] statement and declares no exception; the
    names are needed to state that a call fails with one of them. *)
Inductive Exception : Set :=
| InvalidConfiguration
| InputContractViolation
| EmptyPopulation.

Class Monad (m : Type -> Type) : Type :=
  { ret : forall {A}, A -> m A;
    bind : forall {A B}, m A -> (A -> m B) -> m B }.

Notation "x <- c ;; k" := (bind c (fun x => k))
  (at level 61, c at next level, right associativity).
Notation "c ;; k" := (bind c (fun _ => k))
  (at level 61, right associativity).

#[global] Instance option_monad : Monad option :=
  { ret := fun A a => Some a;
    bind := fun A B c k =>
      match c with
      | Some a => k a
      | None => None
      end }.

(** ** Numeric helpers from the C library *)

(** [constexpr float TWO_PI = 2.0f * M_PI]. *)
Definition TWO_PI : R := 2 * PI.

(** Rounding toward zero, the quotient [fmod] subtracts. *)
Definition Rtrunc (r : R) : Z :=
  if Rle_dec 0 r then Int_part r else (- Int_part (- r))%Z.

(** [fmod a b]: [a - n * b] with [n] the quotient [a / b] truncated toward
    zero, so the result has the sign of [a] and magnitude below [|b|]. *)
Definition fmod (a b : R) : R := a - IZR (Rtrunc (a / b)) * b.

(** [atan2 y x]: the angle of the point [(x, y)], in (-PI, PI]. *)
Definition atan2 (y x : R) : R :=
  if Rlt_dec 0 x then atan (y / x)
  else if Rlt_dec x 0 then
         if Rle_dec 0 y then atan (y / x) + PI else atan (y / x) - PI
       else if Rlt_dec 0 y then PI / 2
            else if Rlt_dec y 0 then - (PI / 2) else 0.

(** ** Random sources *)

(** [std::normal_distribution<float>(mean, stddev)]. *)
Record normal_distribution : Type :=
  mk_normal { mean : R; stddev : R }.

(** [std::discrete_distribution<int>] built from a weight range. *)
Record discrete_distribution : Type :=
  mk_discrete { discrete_weights : list R }.

(** The generator: the standard normal variates and the discrete indices it
    will deliver, and how many draws were made so far.  Its declaration is in
    [particle_filter.hpp], which is not among the sources, so the initial
    state is a parameter of the constructors. *)
Record Gen : Type :=
  mk_gen { normal_variate : nat -> R;
           discrete_variate : nat -> nat;
           drawn : nat }.

Definition advance (g : Gen) : Gen :=
  mk_gen (normal_variate g) (discrete_variate g) (S (drawn g)).

(** One call [d(gen)] of a normal distribution: the next standard variate
    scaled by the deviation and shifted by the mean. *)
Definition draw_normal (d : normal_distribution) (g : Gen) : R * Gen :=
  (normal_variate g (drawn g) * stddev d + mean d, advance g).

(** One call [d(gen)] of a discrete distribution over [n] weights.  The
    library delivers an index [i] with [0 <= i < n] (and always 0 when the
    weight range is empty); that contract is the predicate
    [discrete_contract] below, a hypothesis wherever it matters. *)
Definition draw_discrete (d : discrete_distribution) (g : Gen) : nat * Gen :=
  (discrete_variate g (drawn g), advance g).

Definition discrete_contract (d : discrete_distribution) (g : Gen) : Prop :=
  forall k : nat,
    (discrete_variate g k < Nat.max 1 (length (discrete_weights d)))%nat.

(** ** Data model *)

(** Modelled from the spec: [struct Particle] is declared in
    [particle_filter.hpp], which is not among the sources; section 3 gives
    its attributes, and the aggregate initialisation
    [Particle p{x, y, theta, 1.0f/num_particles}] their order. *)
Record Particle : Type :=
  mkParticle { x : R; y : R; theta : R; weight : R }.

Definition Vector2f : Type := (R * R)%type.
Definition Vector3f : Type := (R * R * R)%type.

(** ** The simulated robot *)

Module Robot.

(** The members initialised by the constructor at line 30. *)
Record t : Type :=
  mk { x_ : R; y_ : R; theta_ : R;
       sigma_pos_ : R; sigma_rot_ : R; sigma_sense_ : R;
       dist_pos_ : normal_distribution;
       dist_rot_ : normal_distribution;
       dist_sense_ : normal_distribution;
       gen_ : Gen }.

(** [Robot::Robot(sigma_pos, sigma_rot, sigma_sense, x, y, theta)]:
    the member initialisers, in order. *)
Definition Robot (sigma_pos sigma_rot sigma_sense x y theta : R)
           (gen : Gen) : t :=
  let sigma_pos_ := 0.1 in
  let sigma_rot_ := 0.05 in
  let sigma_sense_ := 0.05 in
  mk x y theta sigma_pos_ sigma_rot_ sigma_sense_
     (mk_normal 0 sigma_pos_) (mk_normal 0 sigma_rot_)
     (mk_normal 0 sigma_sense_) gen.

Definition with_gen (r : t) (g : Gen) : t :=
  mk (x_ r) (y_ r) (theta_ r) (sigma_pos_ r) (sigma_rot_ r) (sigma_sense_ r)
     (dist_pos_ r) (dist_rot_ r) (dist_sense_ r) g.

(** [Robot::moveForward], lines 32-37. *)
Definition moveForward (distance : R) (r : t) : t :=
  let (noise, g) := draw_normal (dist_pos_ r) (gen_ r) in
  let noisy_distance := distance + noise in
  let x' := x_ r + noisy_distance * cos (theta_ r) in
  let y' := y_ r + noisy_distance * sin (theta_ r) in
  mk x' y' (theta_ r) (sigma_pos_ r) (sigma_rot_ r) (sigma_sense_ r)
     (dist_pos_ r) (dist_rot_ r) (dist_sense_ r) g.

(** [Robot::rotate], lines 39-44. *)
Definition rotate (rotation : R) (r : t) : t :=
  let (noise, g) := draw_normal (dist_rot_ r) (gen_ r) in
  let noisy_rotation := rotation + noise in
  let theta' := fmod (theta_ r + noisy_rotation) TWO_PI in
  let theta' := if Rlt_dec theta' 0 then theta' + TWO_PI else theta' in
  mk (x_ r) (y_ r) theta' (sigma_pos_ r) (sigma_rot_ r) (sigma_sense_ r)
     (dist_pos_ r) (dist_rot_ r) (dist_sense_ r) g.

(** The loop of [senseAllLandmarks], lines 49-55: [measurements] holds the
    readings pushed so far. *)
Fixpoint sense_loop (landmarks : list Vector2f) (measurements : list R) (r : t)
  : list R * t :=
  match landmarks with
  | [] => (measurements, r)
  | lm :: rest =>
      let dx := fst lm - x_ r in
      let dy := snd lm - y_ r in
      let dist := sqrt (dx * dx + dy * dy) in
      let (noise, g) := draw_normal (dist_sense_ r) (gen_ r) in
      sense_loop rest (measurements ++ [dist + noise]) (with_gen r g)
  end.

(** [Robot::senseAllLandmarks], lines 46-57: the readings, and the robot
    with its generator advanced. *)
Definition senseAllLandmarks (landmarks : list Vector2f) (r : t) : list R * t :=
  sense_loop landmarks [] r.

End Robot.

(** ** The map *)

Module Map.

(** Modelled from the spec: [struct Wall] is declared in
    [particle_filter.hpp], which is not among the sources; the initialiser
    at lines 8-13 gives it two points. *)
Definition Wall : Type := (Vector2f * Vector2f)%type.

Record t : Type :=
  mk { walls_ : list Wall; landmarks_ : list Vector2f }.

(** [Map::Map], lines 7-20. *)
Definition Map : t :=
  mk [((0, 0), (10, 0)); ((10, 0), (10, 10));
      ((10, 10), (0, 10)); ((0, 10), (0, 0))]
     [(0, 0); (0, 10); (10, 10); (10, 0)].

(** [Map::getWalls], lines 22-24. *)
Definition getWalls (m : t) : list Wall := walls_ m.

(** [Map::getLandmarks], lines 26-28. *)
Definition getLandmarks (m : t) : list Vector2f := landmarks_ m.

End Map.

(** ** The particle filter *)

Module ParticleFilter.

(** The members initialised by the constructor at line 66, the population
    [particles_] (a default-constructed, empty vector) and the generator. *)
Record t : Type :=
  mk { sigma_pos_ : R; sigma_rot_ : R; sigma_sense_ : R;
       dist_pos_ : normal_distribution;
       dist_rot_ : normal_distribution;
       dist_sense_ : normal_distribution;
       particles_ : list Particle;
       gen_ : Gen }.

Definition with_particles (pf : t) (ps : list Particle) : t :=
  mk (sigma_pos_ pf) (sigma_rot_ pf) (sigma_sense_ pf)
     (dist_pos_ pf) (dist_rot_ pf) (dist_sense_ pf) ps (gen_ pf).

Definition with_gen (pf : t) (g : Gen) : t :=
  mk (sigma_pos_ pf) (sigma_rot_ pf) (sigma_sense_ pf)
     (dist_pos_ pf) (dist_rot_ pf) (dist_sense_ pf) (particles_ pf) g.

(** How a member call ends: it returns a value and leaves the object in a
    state, or throws and leaves the object in a state, or is undefined. *)
Inductive outcome (A : Type) : Type :=
| Normal (a : A) (pf : t)
| Throws (e : Exception) (pf : t)
| Undefined.
Arguments Normal {A} a pf.
Arguments Throws {A} e pf.
Arguments Undefined {A}.

(** A member function reads and updates the object. *)
Definition M (A : Type) : Type := t -> outcome A.

#[global] Instance M_monad : Monad M :=
  { ret := fun A a pf => Normal a pf;
    bind := fun A B c k pf =>
      match c pf with
      | Normal a pf' => k a pf'
      | Throws e pf' => Throws e pf'
      | Undefined => Undefined
      end }.

Definition gets {A : Type} (field : t -> A) : M A :=
  fun pf => Normal (field pf) pf.

Definition set_particles (ps : list Particle) : M unit :=
  fun pf => Normal tt (with_particles pf ps).

Definition undefined {A : Type} : M A := fun _ => Undefined.

(** [d(gen_)] for a normal distribution [d]. *)
Definition sample (d : normal_distribution) : M R :=
  fun pf => let (v, g) := draw_normal d (gen_ pf) in Normal v (with_gen pf g).

(** [d(gen_)] for a discrete distribution [d]. *)
Definition sample_index (d : discrete_distribution) : M nat :=
  fun pf => let (i, g) := draw_discrete d (gen_ pf) in Normal i (with_gen pf g).

(** [particles_.push_back(p)]. *)
Definition push_back (p : Particle) : M unit :=
  fun pf => Normal tt (with_particles pf (particles_ pf ++ [p])).

(** [ParticleFilter::ParticleFilter(sigma_pos, sigma_rot, sigma_sense)]. *)
Definition ParticleFilter (sigma_pos sigma_rot sigma_sense : R) (gen : Gen) : t :=
  let sigma_pos_ := sigma_pos in
  let sigma_rot_ := sigma_rot in
  let sigma_sense_ := sigma_sense in
  mk sigma_pos_ sigma_rot_ sigma_sense_
     (mk_normal 0 sigma_pos_) (mk_normal 0 sigma_rot)
     (mk_normal 0 sigma_sense_) [] gen.

(** The loop of [initializeParticles]; [iterations] counts the passes
    [i = 0 .. num_particles - 1] still to run. *)
Fixpoint initialize_loop (normal_x normal_y normal_theta : normal_distribution)
         (num_particles : Z) (iterations : nat) : M unit :=
  match iterations with
  | O => ret tt
  | S remaining =>
      px <- sample normal_x ;;
      py <- sample normal_y ;;
      ptheta <- sample normal_theta ;;
      let p := mkParticle px py ptheta (1 / IZR num_particles) in
      push_back p ;;
      initialize_loop normal_x normal_y normal_theta num_particles remaining
  end.

(** [ParticleFilter::initializeParticles], lines 68-79. *)
Definition initializeParticles (robot_x robot_y robot_theta : R)
           (num_particles : Z) : M unit :=
  s_pos <- gets sigma_pos_ ;;
  s_rot <- gets sigma_rot_ ;;
  let normal_x := mk_normal robot_x s_pos in
  let normal_y := mk_normal robot_y s_pos in
  let normal_theta := mk_normal robot_theta s_rot in
  initialize_loop normal_x normal_y normal_theta num_particles
                  (Z.to_nat num_particles).

(** [ParticleFilter::moveParticle], lines 81-90; the particle is passed by
    reference, so the updated particle is the result. *)
Definition moveParticle (p : Particle) (distance rotation : R) : M Particle :=
  d_pos <- gets dist_pos_ ;;
  noise_pos <- sample d_pos ;;
  let noisy_distance := distance + noise_pos in
  let px := x p + noisy_distance * cos (theta p) in
  let py := y p + noisy_distance * sin (theta p) in
  d_rot <- gets dist_rot_ ;;
  noise_rot <- sample d_rot ;;
  let noisy_rotation := rotation + noise_rot in
  let ptheta := fmod (theta p + noisy_rotation) TWO_PI in
  let ptheta := if Rlt_dec ptheta 0 then ptheta + TWO_PI else ptheta in
  ret (mkParticle px py ptheta (weight p)).

(** [for (auto& p : ps) body(p)] for a body that updates [p] in place. *)
Fixpoint for_each (body : Particle -> M Particle) (ps : list Particle)
  : M (list Particle) :=
  match ps with
  | [] => ret []
  | p :: rest =>
      p' <- body p ;;
      rest' <- for_each body rest ;;
      ret (p' :: rest')
  end.

(** [ParticleFilter::updateMotion], lines 92-98. *)
Definition updateMotion (distance rotation : R) : M unit :=
  ps <- gets particles_ ;;
  ps' <- for_each (fun p => moveParticle p distance rotation) ps ;;
  set_particles ps'.

(** The inner loop of [calculateWeights], lines 109-116: [landmarks] holds
    the landmarks from position [i] on, [weight] the product so far.
    [landmarks[i]] is always in range; [measurements[i]] is read unchecked. *)
Fixpoint likelihood_loop (gauss_norm denom : R) (p : Particle)
         (measurements : list R) (landmarks : list Vector2f)
         (i : nat) (weight : R) : option R :=
  match landmarks with
  | [] => Some weight
  | lm :: rest =>
      match nth_error measurements i with
      | None => None
      | Some measurement =>
          let expected :=
            sqrt ((fst lm - x p) * (fst lm - x p)
                  + (snd lm - y p) * (snd lm - y p)) in
          let diff := measurement - expected in
          let weight := weight * (gauss_norm * exp (- (diff * diff) / denom)) in
          likelihood_loop gauss_norm denom p measurements rest (S i) weight
      end
  end.

(** The outer loop, lines 106-120: every particle receives its likelihood
    product as weight, and [total_weight] accumulates them. *)
Fixpoint weight_loop (gauss_norm denom : R)
         (measurements : list R) (landmarks : list Vector2f)
         (ps : list Particle) (total_weight : R)
  : option (list Particle * R) :=
  match ps with
  | [] => Some ([], total_weight)
  | p :: rest =>
      w <- likelihood_loop gauss_norm denom p measurements landmarks 0 1 ;;
      let p' := mkParticle (x p) (y p) (theta p) w in
      let total_weight := total_weight + weight p' in
      r <- weight_loop gauss_norm denom measurements landmarks rest total_weight ;;
      Some (p' :: fst r, snd r)
  end.

(** [p.weight /= total_weight] for every particle, lines 123-124. *)
Definition normalize (total_weight : R) (ps : list Particle) : list Particle :=
  map (fun p => mkParticle (x p) (y p) (theta p) (weight p / total_weight)) ps.

(** [ParticleFilter::calculateWeights], lines 100-126. *)
Definition calculateWeights (measurements : list R) (landmarks : list Vector2f)
  : M unit :=
  fun pf =>
    let total_weight := 0 in
    let gauss_norm :=
      1 / sqrt (2 * PI * sigma_sense_ pf * sigma_sense_ pf) in
    let denom := 2 * sigma_sense_ pf * sigma_sense_ pf in
    match weight_loop gauss_norm denom measurements landmarks
                      (particles_ pf) total_weight with
    | Some (ps, total_weight) =>
        if Rlt_dec 0 total_weight
        then Normal tt (with_particles pf (normalize total_weight ps))
        else Normal tt (with_particles pf ps)
    | None => Undefined
    end.

(** The drawing loop of [resampleParticles], lines 137-141;
    [particles_[index]] is read unchecked. *)
Fixpoint resample_loop (distribution : discrete_distribution)
         (iterations : nat) (new_particles : list Particle)
  : M (list Particle) :=
  match iterations with
  | O => ret new_particles
  | S remaining =>
      index <- sample_index distribution ;;
      ps <- gets particles_ ;;
      match nth_error ps index with
      | None => undefined
      | Some p => resample_loop distribution remaining (new_particles ++ [p])
      end
  end.

(** [ParticleFilter::resampleParticles], lines 128-143. *)
Definition resampleParticles : M unit :=
  ps <- gets particles_ ;;
  let weights := map weight ps in
  let distribution := mk_discrete weights in
  new_particles <- resample_loop distribution (length ps) [] ;;
  set_particles new_particles.

(** The accumulation loop of [estimateState], lines 148-154. *)
Definition sums (ps : list Particle) : R * R * R * R :=
  fold_left
    (fun acc p =>
       let '(sum_x, sum_y, sum_sin, sum_cos) := acc in
       (sum_x + x p, sum_y + y p, sum_sin + sin (theta p), sum_cos + cos (theta p)))
    ps (0, 0, 0, 0).

(** [ParticleFilter::estimateState], lines 145-160; a [const] member. *)
Definition estimateState : M Vector3f :=
  ps <- gets particles_ ;;
  let '(sum_x, sum_y, sum_sin, sum_cos) := sums ps in
  let size := INR (length ps) in
  ret (sum_x / size, sum_y / size, atan2 (sum_sin / size) (sum_cos / size)).

(** Lines 171-175 of [updateAndEstimate]. *)
Definition total_weight_squared (ps : list Particle) : R :=
  fold_left (fun acc p => acc + weight p * weight p) ps 0.

Definition Neff (ps : list Particle) : R :=
  1 / (total_weight_squared ps + 1e-6).

(** Lines 171-177: the degeneracy test and the conditional resampling.
    [particles_.size() / 2] divides two unsigned integers; the quotient is
    then converted for the comparison with [Neff]. *)
Definition resampleIfNeeded : M unit :=
  ps <- gets particles_ ;;
  if Rlt_dec (Neff ps) (INR (length ps / 2))
  then resampleParticles
  else ret tt.

(** [ParticleFilter::updateAndEstimate], lines 162-183. *)
Definition updateAndEstimate (distance rotation : R)
           (measurements : list R) (landmarks : list Vector2f) : M Vector3f :=
  updateMotion distance rotation ;;
  calculateWeights measurements landmarks ;;
  resampleIfNeeded ;;
  estimated_pose <- estimateState ;;
  ret estimated_pose.

End ParticleFilter.

Import ParticleFilter.

(** ** The driver *)

(** What one pass of [main] prints: the robot's state ([printState]) and
    the estimate. *)
Record Printed : Type :=
  mk_printed { printed_robot : R * R * R; printed_estimate : Vector3f }.

(** How [main] ends: it returns after printing, an exception escapes, or
    the behaviour is undefined. *)
Inductive run : Type :=
| Exit (printed : list Printed) (robot : Robot.t) (pf : ParticleFilter.t)
| Uncaught (e : Exception)
| Crash.

(** Sense, step the filter, print: lines 207-212 and 215-220. *)
Definition main_observe (distance rotation : R) (map : Map.t)
           (printed : list Printed) (robot : Robot.t) (pf : ParticleFilter.t)
  : run :=
  let (measurements, robot) :=
    Robot.senseAllLandmarks (Map.getLandmarks map) robot in
  match updateAndEstimate distance rotation measurements
                          (Map.getLandmarks map) pf with
  | Normal estimate pf =>
      let line :=
        mk_printed (Robot.x_ robot, Robot.y_ robot, Robot.theta_ robot)
                   estimate in
      Exit (printed ++ [line]) robot pf
  | Throws e _ => Uncaught e
  | Undefined => Crash
  end.

(** The inner loop of [main], lines 204-213; [steps] counts the passes
    still to run. *)
Fixpoint main_forward_loop (forward_distance : R) (map : Map.t) (steps : nat)
         (printed : list Printed) (robot : Robot.t) (pf : ParticleFilter.t)
  : run :=
  match steps with
  | O => Exit printed robot pf
  | S remaining =>
      let robot := Robot.moveForward forward_distance robot in
      match main_observe forward_distance 0 map printed robot pf with
      | Exit printed robot pf =>
          main_forward_loop forward_distance map remaining printed robot pf
      | Uncaught e => Uncaught e
      | Crash => Crash
      end
  end.

(** The outer loop of [main], lines 202-221, over the entries of
    [side_lengths] still to run. *)
Fixpoint main_sides (forward_distance turn_angle : R) (map : Map.t)
         (side_lengths : list Z)
         (printed : list Printed) (robot : Robot.t) (pf : ParticleFilter.t)
  : run :=
  match side_lengths with
  | [] => Exit printed robot pf
  | side_length :: rest =>
      match main_forward_loop forward_distance map (Z.to_nat side_length)
                              printed robot pf with
      | Exit printed robot pf =>
          let robot := Robot.rotate turn_angle robot in
          match main_observe 0 turn_angle map printed robot pf with
          | Exit printed robot pf =>
              main_sides forward_distance turn_angle map rest printed robot pf
          | Uncaught e => Uncaught e
          | Crash => Crash
          end
      | Uncaught e => Uncaught e
      | Crash => Crash
      end
  end.

(** [main], lines 185-222.  The two generators start in the states the
    header gives them, parameters here; the getters of the robot are taken
    to return the members. *)
Definition main (robot_gen filter_gen : Gen) : run :=
  let sigma_pos := 0.1 in
  let sigma_rot := 0.05 in
  let sigma_sense := 0.3 in
  let x0 := 1 in
  let y0 := 1 in
  let theta0 := 0 in
  let num_particles := 500%Z in
  let map := Map.Map in
  let robot := Robot.Robot sigma_pos sigma_rot sigma_sense x0 y0 theta0 robot_gen in
  let pf := ParticleFilter (Robot.sigma_pos_ robot) (Robot.sigma_rot_ robot)
                           (Robot.sigma_sense_ robot) filter_gen in
  match initializeParticles x0 y0 theta0 num_particles pf with
  | Normal _ pf =>
      let side_lengths := [8; 8; 8; 8]%Z in
      let forward_distance := 1 in
      let turn_angle := - PI / 2 in
      main_sides forward_distance turn_angle map side_lengths [] robot pf
  | Throws e _ => Uncaught e
  | Undefined => Crash
  end.

(** ** Concrete objects used to run the definitions *)

(** A generator whose variates are all zero. *)
Definition gen_zero : Gen := mk_gen (fun _ => 0) (fun _ => 0%nat) 0.

(** The robot of [main], lines 187-192. *)
Definition robot_main : Robot.t := Robot.Robot 0.1 0.05 0.3 1 1 0 gen_zero.

(** The filter [main] builds from the robot's deviations, line 193, before
    [initializeParticles]; the getters [getSigmaPos], [getSigmaRot] and
    [getSigmaSense] are declared in the header and taken to return the
    members. *)
Definition pf_fresh : ParticleFilter.t :=
  ParticleFilter (Robot.sigma_pos_ robot_main) (Robot.sigma_rot_ robot_main)
                 (Robot.sigma_sense_ robot_main) gen_zero.

(** Every particle of a population has the pose [(x0, y0, theta0)]. *)
Definition same_pose (x0 y0 theta0 : R) (p : Particle) : Prop :=
  x p = x0 /\ y p = y0 /\ theta p = theta0.


(** One particle of weight one half. *)
Definition pf_half : ParticleFilter.t :=
  with_particles pf_fresh [mkParticle 0 0 0 (1 / 2)].

(** Three particles whose normalised weights are 0.9, 0.09 and 0.01. *)
Definition pf_three : ParticleFilter.t :=
  with_particles pf_fresh
    [mkParticle 0 0 0 0.9; mkParticle 1 0 0 0.09; mkParticle 2 0 0 0.01].

(** A generator whose fourth and seventh normal variates are 2 and -2, all
    others 0. *)
Definition gen_spread : Gen :=
  mk_gen (fun k => if Nat.eqb k 3 then 2 else if Nat.eqb k 6 then -2 else 0)
         (fun _ => 0%nat) 0.

(** The filter of [main], on that generator. *)
Definition pf_spread : ParticleFilter.t :=
  ParticleFilter (Robot.sigma_pos_ robot_main) (Robot.sigma_rot_ robot_main)
                 (Robot.sigma_sense_ robot_main) gen_spread.

(** That filter after [n] draws, holding three particles on the x axis at
    1, 1.2 and 0.8 with the given weights. *)
Definition spread (w1 w2 w3 : R) (n : nat) : ParticleFilter.t :=
  with_gen
    (with_particles pf_spread
       [mkParticle 1 0 0 w1; mkParticle 1.2 0 0 w2; mkParticle 0.8 0 0 w3])
    (mk_gen (normal_variate gen_spread) (discrete_variate gen_spread) n).

(** ** The weighting step in the words of the specification *)

(** The univariate Gaussian density of mean 0 and deviation [sigma]. *)
Definition gaussian_density (sigma r : R) : R :=
  1 / sqrt (2 * PI * sigma * sigma) * exp (- (r * r) / (2 * sigma * sigma)).

(** The Euclidean distance from a particle's position to a landmark. *)
Definition expected_range (p : Particle) (lm : Vector2f) : R :=
  sqrt ((fst lm - x p) * (fst lm - x p) + (snd lm - y p) * (snd lm - y p)).

(** The likelihood of a particle: the product, over the landmarks, of the
    density at the residual between the measured and the expected range,
    measurements and landmarks aligned by position.  There is none when a
    landmark has no measurement. *)
Fixpoint likelihood (sigma : R) (p : Particle)
         (measurements : list R) (landmarks : list Vector2f) {struct landmarks}
  : option R :=
  match landmarks with
  | [] => Some 1
  | lm :: landmarks' =>
      match measurements with
      | [] => None
      | m :: measurements' =>
          option_map
            (Rmult (gaussian_density sigma (m - expected_range p lm)))
            (likelihood sigma p measurements' landmarks')
      end
  end.

(** The total mass of a list of likelihoods or weights. *)
Definition Rsum (l : list R) : R := fold_right Rplus 0 l.

(** The particles [ps] with their weights replaced, in order, by [ws]. *)
Definition reweighted (ps : list Particle) (ws : list R) : list Particle :=
  map (fun pw => mkParticle (x (fst pw)) (y (fst pw)) (theta (fst pw)) (snd pw))
      (combine ps ws).

(** ** Vocabulary of the further properties *)

(** The two statements that bring a heading back into one turn, lines 42-43
    and 88-89. *)
Definition wrap (a : R) : R :=
  let t := fmod a TWO_PI in if Rlt_dec t 0 then t + TWO_PI else t.

(** The pose of a particle, without its weight. *)
Definition pose (p : Particle) : R * R * R := (x p, y p, theta p).

(** The particle [p] moved as [moveParticle] moves it when the generator of
    [pf] delivers its variates number [k] and [k + 1]. *)
Definition moved (pf : ParticleFilter.t) (distance rotation : R) (k : nat)
           (p : Particle) : Particle :=
  let z := normal_variate (gen_ pf) in
  let noisy_distance :=
    distance + (z k * stddev (dist_pos_ pf) + mean (dist_pos_ pf)) in
  let noisy_rotation :=
    rotation + (z (S k) * stddev (dist_rot_ pf) + mean (dist_rot_ pf)) in
  mkParticle (x p + noisy_distance * cos (theta p))
             (y p + noisy_distance * sin (theta p))
             (wrap (theta p + noisy_rotation))
             (weight p).



(** ** Binary floating point *)

(** The program's [float] is IEEE 754 binary32 and its [double] binary64,
    both rounding to nearest even.  The operations are those of the Standard
    Library's executable specification [SpecFloat]. *)

Module Binary64.

Definition prec : Z := 53.
Definition emax : Z := 1024.

Definition double : Type := spec_float.

Definition mul : double -> double -> double := SFmul prec emax.
Definition div : double -> double -> double := SFdiv prec emax.
Definition sqrt : double -> double := SFsqrt prec emax.

(** The double nearest to [m * 2^e]. *)
Definition round (m e : Z) : double := binary_normalize prec emax m e false.

Definition of_Z (n : Z) : double := round n 0.

(** The macro [M_PI], 3.14159265358979323846: the double 0x400921FB54442D18. *)
Definition M_PI : double := S754_finite false 7074237752028440 (-51).

End Binary64.

Module Binary32.

Definition prec : Z := 24.
Definition emax : Z := 128.

Definition float : Type := spec_float.

Definition add : float -> float -> float := SFadd prec emax.
Definition sub : float -> float -> float := SFsub prec emax.
Definition mul : float -> float -> float := SFmul prec emax.
Definition div : float -> float -> float := SFdiv prec emax.
Definition sqrt : float -> float := SFsqrt prec emax.
Definition opp : float -> float := SFopp.
Definition ltb : float -> float -> bool := SFltb.

(** The float nearest to [m * 2^e]. *)
Definition round (m e : Z) : float := binary_normalize prec emax m e false.

(** Conversion of an integer, as in [sum_x / particles_.size()]. *)
Definition of_Z (n : Z) : float := round n 0.
Definition of_size (n : nat) : float := of_Z (Z.of_nat n).

Definition zero : float := S754_zero false.
Definition one : float := of_Z 1.
Definition two : float := of_Z 2.
Definition nan : float := S754_nan.

(** A decimal literal [n / d] with [n] and [d] exact in binary32, such as
    [0.05f] = 1 / 20 or [1e-6f] = 1 / 1000000: the nearest float. *)
Definition literal (n d : Z) : float := div (of_Z n) (of_Z d).

Definition is_finite (f : float) : bool :=
  match f with
  | S754_zero _ | S754_finite _ _ _ => true
  | S754_infinity _ | S754_nan => false
  end.

Definition is_nan (f : float) : bool :=
  match f with
  | S754_nan => true
  | _ => false
  end.

(** The real number a finite float stands for. *)
Definition to_R (f : float) : R :=
  match f with
  | S754_finite s m e => IZR (cond_Zopp s (Zpos m)) * powerRZ 2 e
  | _ => 0
  end.

(** Conversions between the two formats: widening is exact, narrowing
    rounds. *)
Definition to_double (f : float) : Binary64.double :=
  match f with
  | S754_finite s m e =>
      binary_normalize Binary64.prec Binary64.emax (cond_Zopp s (Zpos m)) e s
  | _ => f
  end.

Definition of_double (d : Binary64.double) : float :=
  match d with
  | S754_finite s m e => binary_normalize prec emax (cond_Zopp s (Zpos m)) e s
  | _ => d
  end.

(** [fmod x y]: [x - n * y] with [n] the quotient [x / y] truncated toward
    zero, so the result has the sign of [x] and magnitude below [|y|].  It is
    always representable: no rounding takes place, in the [float] overload
    as in the [double] one.  NaN for an infinite [x] or a zero [y]. *)
Definition fmod (x y : float) : float :=
  match x, y with
  | S754_nan, _ | _, S754_nan => S754_nan
  | S754_infinity _, _ => S754_nan
  | _, S754_zero _ => S754_nan
  | S754_zero _, _ => x
  | S754_finite _ _ _, S754_infinity _ => x
  | S754_finite sx mx ex, S754_finite _ my ey =>
      let e := Z.min ex ey in
      let numerator := (Zpos mx * 2 ^ (ex - e))%Z in
      let denominator := (Zpos my * 2 ^ (ey - e))%Z in
      binary_normalize prec emax
        (cond_Zopp sx (numerator mod denominator)%Z) e sx
  end.

(** [constexpr float TWO_PI = 2.0f * M_PI]: the product is formed in double
    and narrowed; it is the float 0x40C90FDB = 6.2831855. *)
Definition TWO_PI : float :=
  of_double (Binary64.mul (to_double two) Binary64.M_PI).

(** The C library functions whose values the language does not fix: [cos],
    [sin] and [atan2], which the program calls unqualified and which are
    taken at their [float] overloads, and [std::exp].  They are platform
    data, like the variates of the generator: a property of the code holds
    for every library, or for every library with the behaviour a hypothesis
    states.  [std::sqrt] is correctly rounded and needs no parameter. *)
Record Libm : Type :=
  mk_libm { cos : float -> float;
            sin : float -> float;
            exp : float -> float;
            atan2 : float -> float -> float }.

(** [std::normal_distribution<float>(mean, stddev)]. *)
Record normal_distribution : Type :=
  mk_normal { mean : float; stddev : float }.

(** The generator, as in the idealised model: the standard normal variates
    and the discrete indices it will deliver, with a cursor. *)
Record Gen : Type :=
  mk_gen { normal_variate : nat -> float;
           discrete_variate : nat -> nat;
           drawn : nat }.

Definition advance (g : Gen) : Gen :=
  mk_gen (normal_variate g) (discrete_variate g) (S (drawn g)).

(** One call [d(gen)] of a normal distribution: the next standard variate
    scaled by the deviation and shifted by the mean, in float arithmetic. *)
Definition draw_normal (d : normal_distribution) (g : Gen) : float * Gen :=
  (add (mul (normal_variate g (drawn g)) (stddev d)) (mean d), advance g).

(** [std::discrete_distribution<int>] built from a weight range, and one
    call [d(gen)] of it. *)
Record discrete_distribution : Type :=
  mk_discrete { discrete_weights : list float }.

Definition draw_discrete (d : discrete_distribution) (g : Gen) : nat * Gen :=
  (discrete_variate g (drawn g), advance g).

(** [struct Particle], as in the idealised reading, with float members. *)
Record Particle : Type :=
  mkParticle { x : float; y : float; theta : float; weight : float }.

Definition Vector2f : Type := (float * float)%type.
Definition Vector3f : Type := (float * float * float)%type.

Module ParticleFilter.

Record t : Type :=
  mk { sigma_pos_ : float; sigma_rot_ : float; sigma_sense_ : float;
       dist_pos_ : normal_distribution;
       dist_rot_ : normal_distribution;
       dist_sense_ : normal_distribution;
       particles_ : list Particle;
       gen_ : Gen }.

Definition with_particles (pf : t) (ps : list Particle) : t :=
  mk (sigma_pos_ pf) (sigma_rot_ pf) (sigma_sense_ pf)
     (dist_pos_ pf) (dist_rot_ pf) (dist_sense_ pf) ps (gen_ pf).

Definition with_gen (pf : t) (g : Gen) : t :=
  mk (sigma_pos_ pf) (sigma_rot_ pf) (sigma_sense_ pf)
     (dist_pos_ pf) (dist_rot_ pf) (dist_sense_ pf) (particles_ pf) g.

Inductive outcome (A : Type) : Type :=
| Normal (a : A) (pf : t)
| Throws (e : Exception) (pf : t)
| Undefined.
Arguments Normal {A} a pf.
Arguments Throws {A} e pf.
Arguments Undefined {A}.

Definition M (A : Type) : Type := t -> outcome A.

#[export] Instance M_monad : Monad M :=
  { ret := fun A a pf => Normal a pf;
    bind := fun A B c k pf =>
      match c pf with
      | Normal a pf' => k a pf'
      | Throws e pf' => Throws e pf'
      | Undefined => Undefined
      end }.

Definition gets {A : Type} (field : t -> A) : M A :=
  fun pf => Normal (field pf) pf.

Definition set_particles (ps : list Particle) : M unit :=
  fun pf => Normal tt (with_particles pf ps).

Definition undefined {A : Type} : M A := fun _ => Undefined.

Definition sample (d : normal_distribution) : M float :=
  fun pf => let (v, g) := draw_normal d (gen_ pf) in Normal v (with_gen pf g).

Definition sample_index (d : discrete_distribution) : M nat :=
  fun pf => let (i, g) := draw_discrete d (gen_ pf) in Normal i (with_gen pf g).

(** [ParticleFilter::ParticleFilter(sigma_pos, sigma_rot, sigma_sense)]. *)
Definition ParticleFilter (sigma_pos sigma_rot sigma_sense : float) (gen : Gen)
  : t :=
  let sigma_pos_ := sigma_pos in
  let sigma_rot_ := sigma_rot in
  let sigma_sense_ := sigma_sense in
  mk sigma_pos_ sigma_rot_ sigma_sense_
     (mk_normal zero sigma_pos_) (mk_normal zero sigma_rot)
     (mk_normal zero sigma_sense_) [] gen.

(** [ParticleFilter::moveParticle], lines 81-90. *)
Definition moveParticle (libm : Libm) (p : Particle) (distance rotation : float)
  : M Particle :=
  d_pos <- gets dist_pos_ ;;
  noise_pos <- sample d_pos ;;
  let noisy_distance := add distance noise_pos in
  let px := add (x p) (mul noisy_distance (cos libm (theta p))) in
  let py := add (y p) (mul noisy_distance (sin libm (theta p))) in
  d_rot <- gets dist_rot_ ;;
  noise_rot <- sample d_rot ;;
  let noisy_rotation := add rotation noise_rot in
  let ptheta := fmod (add (theta p) noisy_rotation) TWO_PI in
  let ptheta := if ltb ptheta zero then add ptheta TWO_PI else ptheta in
  ret (mkParticle px py ptheta (weight p)).

(** The inner loop of [calculateWeights], lines 109-116; [measurements[i]] is
    read unchecked. *)
Fixpoint likelihood_loop (libm : Libm) (gauss_norm denom : float) (p : Particle)
         (measurements : list float) (landmarks : list Vector2f)
         (i : nat) (weight : float) : option float :=
  match landmarks with
  | [] => Some weight
  | lm :: rest =>
      match nth_error measurements i with
      | None => None
      | Some measurement =>
          let expected :=
            sqrt (add (mul (sub (fst lm) (x p)) (sub (fst lm) (x p)))
                      (mul (sub (snd lm) (y p)) (sub (snd lm) (y p)))) in
          let diff := sub measurement expected in
          let weight :=
            mul weight (mul gauss_norm (exp libm (div (opp (mul diff diff)) denom))) in
          likelihood_loop libm gauss_norm denom p measurements rest (S i) weight
      end
  end.

(** The outer loop, lines 106-120. *)
Fixpoint weight_loop (libm : Libm) (gauss_norm denom : float)
         (measurements : list float) (landmarks : list Vector2f)
         (ps : list Particle) (total_weight : float)
  : option (list Particle * float) :=
  match ps with
  | [] => Some ([], total_weight)
  | p :: rest =>
      w <- likelihood_loop libm gauss_norm denom p measurements landmarks 0 one ;;
      let p' := mkParticle (x p) (y p) (theta p) w in
      let total_weight := add total_weight (weight p') in
      r <- weight_loop libm gauss_norm denom measurements landmarks rest total_weight ;;
      Some (p' :: fst r, snd r)
  end.

(** [p.weight /= total_weight] for every particle, lines 123-124. *)
Definition normalize (total_weight : float) (ps : list Particle) : list Particle :=
  map (fun p => mkParticle (x p) (y p) (theta p) (div (weight p) total_weight)) ps.

(** Line 103: the quotient is formed in double and narrowed. *)
Definition gauss_norm_of (sigma_sense : float) : float :=
  of_double
    (Binary64.div (Binary64.of_Z 1)
       (Binary64.sqrt
          (Binary64.mul
             (Binary64.mul (Binary64.mul (Binary64.of_Z 2) Binary64.M_PI)
                           (to_double sigma_sense))
             (to_double sigma_sense)))).

(** [ParticleFilter::calculateWeights], lines 100-126. *)
Definition calculateWeights (libm : Libm)
           (measurements : list float) (landmarks : list Vector2f) : M unit :=
  fun pf =>
    let total_weight := zero in
    let gauss_norm := gauss_norm_of (sigma_sense_ pf) in
    let denom := mul (mul two (sigma_sense_ pf)) (sigma_sense_ pf) in
    match weight_loop libm gauss_norm denom measurements landmarks
                      (particles_ pf) total_weight with
    | Some (ps, total_weight) =>
        if ltb zero total_weight
        then Normal tt (with_particles pf (normalize total_weight ps))
        else Normal tt (with_particles pf ps)
    | None => Undefined
    end.

(** The accumulation loop of [estimateState], lines 148-154. *)
Definition sums (libm : Libm) (ps : list Particle) : float * float * float * float :=
  fold_left
    (fun acc p =>
       let '(sum_x, sum_y, sum_sin, sum_cos) := acc in
       (add sum_x (x p), add sum_y (y p),
        add sum_sin (sin libm (theta p)), add sum_cos (cos libm (theta p))))
    ps (zero, zero, zero, zero).

(** [ParticleFilter::estimateState], lines 145-160. *)
Definition estimateState (libm : Libm) : M Vector3f :=
  ps <- gets particles_ ;;
  let '(sum_x, sum_y, sum_sin, sum_cos) := sums libm ps in
  let size := of_size (length ps) in
  ret (div sum_x size, div sum_y size,
       atan2 libm (div sum_sin size) (div sum_cos size)).

(** The drawing loop of [resampleParticles], lines 137-141;
    [particles_[index]] is read unchecked. *)
Fixpoint resample_loop (distribution : discrete_distribution)
         (iterations : nat) (new_particles : list Particle)
  : M (list Particle) :=
  match iterations with
  | O => ret new_particles
  | S remaining =>
      index <- sample_index distribution ;;
      ps <- gets particles_ ;;
      match nth_error ps index with
      | None => undefined
      | Some p => resample_loop distribution remaining (new_particles ++ [p])
      end
  end.

(** [ParticleFilter::resampleParticles], lines 128-143. *)
Definition resampleParticles : M unit :=
  ps <- gets particles_ ;;
  let weights := map weight ps in
  let distribution := mk_discrete weights in
  new_particles <- resample_loop distribution (length ps) [] ;;
  set_particles new_particles.

(** Lines 171-175 of [updateAndEstimate]; [1e-6f] is the float nearest to
    1 / 1000000. *)
Definition total_weight_squared (ps : list Particle) : float :=
  fold_left (fun acc p => add acc (mul (weight p) (weight p))) ps zero.

Definition Neff (ps : list Particle) : float :=
  div one (add (total_weight_squared ps) (literal 1 1000000)).

(** Lines 171-177: the degeneracy test and the conditional resampling.
    [particles_.size() / 2] divides two unsigned integers; the quotient is
    converted to [float] for the comparison. *)
Definition resampleIfNeeded : M unit :=
  ps <- gets particles_ ;;
  if ltb (Neff ps) (of_size (length ps / 2))
  then resampleParticles
  else ret tt.

End ParticleFilter.

(** *** Vocabulary and concrete objects of the binary32 properties *)

Definition HALF_PI : float :=
  of_double (Binary64.div Binary64.M_PI (Binary64.of_Z 2)).

(** A library known only where the C standard (Annex F) fixes the result
    exactly: [cos(+-0) = 1], [sin(+-0) = +-0], [exp(+-0) = 1],
    [exp(-inf) = +0], [exp(+inf) = +inf], [atan2(+-0, x) = +-0] for [x > 0]
    or [x = +0].  Elsewhere it yields NaN, so that a run which needs any
    other value of the library shows NaN and no made-up number. *)
Definition libm_annex_F : Libm :=
  mk_libm
    (fun a => match a with S754_zero _ => one | _ => nan end)
    (fun a => match a with S754_zero _ => a | _ => nan end)
    (fun a =>
       match a with
       | S754_zero _ => one
       | S754_infinity true => zero
       | S754_infinity false => a
       | _ => nan
       end)
    (fun b a =>
       match b, a with
       | S754_zero _, S754_zero false => b
       | S754_zero _, S754_finite false _ _ => b
       | S754_zero _, S754_infinity false => b
       | _, _ => nan
       end).

(** A generator whose variates are all zero. *)
Definition gen_zero : Gen := mk_gen (fun _ => zero) (fun _ => 0%nat) 0.

(** A generator whose second normal variate is [-2^-20], about -9.5e-7, all
    others zero. *)
Definition gen_small_turn : Gen :=
  mk_gen (fun k => if Nat.eqb k 1 then round (-1) (-20) else zero)
         (fun _ => 0%nat) 0.

(** The filter of [main], lines 187-193: deviations 0.1f, 0.05f and 0.05f. *)
Definition pf_main (g : Gen) : ParticleFilter.t :=
  ParticleFilter.ParticleFilter (literal 1 10) (literal 1 20) (literal 1 20) g.

(** Every particle of a population has the pose [(x0, y0, theta0)]. *)
Definition same_pose (x0 y0 theta0 : float) (p : Particle) : Prop :=
  x p = x0 /\ y p = y0 /\ theta p = theta0.



(** The range residual and its density, as the loop body forms them. *)
Definition expected_range (p : Particle) (lm : Vector2f) : float :=
  sqrt (add (mul (sub (fst lm) (x p)) (sub (fst lm) (x p)))
            (mul (sub (snd lm) (y p)) (sub (snd lm) (y p)))).

Definition density (libm : Libm) (sigma : float) (p : Particle)
           (ml : float * Vector2f) : float :=
  let diff := sub (fst ml) (expected_range p (snd ml)) in
  mul (ParticleFilter.gauss_norm_of sigma)
      (exp libm (div (opp (mul diff diff)) (mul (mul two sigma) sigma))).

(** The likelihood of a particle: the densities of its residuals multiplied
    one after the other onto [1.0f], measurements and landmarks aligned by
    position.  There is none when a landmark has no measurement. *)
Definition likelihood (libm : Libm) (sigma : float) (p : Particle)
           (measurements : list float) (landmarks : list Vector2f)
  : option float :=
  if (length landmarks <=? length measurements)%nat
  then Some (fold_left mul
               (map (density libm sigma p) (combine measurements landmarks))
               one)
  else None.

(** The running total of a list of likelihoods, from [0.0f]. *)
Definition total_of (ls : list float) : float := fold_left add ls zero.

(** The particles [ps] with their weights replaced, in order, by [ws]. *)
Definition reweighted (ps : list Particle) (ws : list float) : list Particle :=
  map (fun pw => mkParticle (x (fst pw)) (y (fst pw)) (theta (fst pw)) (snd pw))
      (combine ps ws).

(** 2000 particles on the landmark at the origin, in the filter of [main]. *)
Definition pf_crowd : ParticleFilter.t :=
  ParticleFilter.with_particles (pf_main gen_zero)
    (repeat (mkParticle zero zero zero (literal 1 2000)) 2000).

(** Two particles on the landmark at the origin. *)
Definition pf_pair : ParticleFilter.t :=
  ParticleFilter.with_particles (pf_main gen_zero)
    (repeat (mkParticle zero zero zero (literal 1 2)) 2).

(** Two particles 2^70 away from the origin along the x axis. *)
Definition pf_far : ParticleFilter.t :=
  ParticleFilter.with_particles (pf_main gen_zero)
    (repeat (mkParticle (round 1 70) zero zero (literal 1 2)) 2).

(** The filter of [main] with the deviation of the sensor set to 0, holding
    two particles. *)
Definition pf_sharp : ParticleFilter.t :=
  ParticleFilter.with_particles
    (ParticleFilter.ParticleFilter (literal 1 10) (literal 1 20) zero gen_zero)
    [mkParticle zero zero zero (literal 1 2);
     mkParticle one zero zero (literal 1 2)].

(** The particles [ps] with every weight replaced by [w]. *)
Definition all_weighted (w : float) (ps : list Particle) : list Particle :=
  map (fun p => mkParticle (x p) (y p) (theta p) w) ps.


End Binary32.

(** * Properties *)

(** Equality of the four running sums, component by component. *)
Ltac sums_eq_by tac := f_equal; [f_equal; [f_equal|]|]; tac.
Tactic Notation "sums_eq" tactic(tac) := sums_eq_by tac.

(** ** Sequencing of member calls *)

Lemma bind_normal :
  forall (A B : Type) (c : M A) (k : A -> M B) (pf pf' : ParticleFilter.t) (a : A),
    c pf = Normal a pf' -> (x <- c ;; k x) pf = k a pf'.
Proof. intros A B c k pf pf' a H. cbn. rewrite H. reflexivity. Qed.

Lemma bind_gets :
  forall (A B : Type) (field : ParticleFilter.t -> A) (k : A -> M B)
         (pf : ParticleFilter.t),
    (v <- gets field ;; k v) pf = k (field pf) pf.
Proof. reflexivity. Qed.

Lemma bind_sample_index :
  forall (B : Type) (d : discrete_distribution) (k : nat -> M B)
         (pf : ParticleFilter.t),
    (i <- sample_index d ;; k i) pf
    = k (discrete_variate (gen_ pf) (drawn (gen_ pf)))
        (with_gen pf (advance (gen_ pf))).
Proof. reflexivity. Qed.

(** ** The C library helpers *)








Lemma Rtrunc_nonneg :
  forall r : R, 0 <= r -> IZR (Rtrunc r) <= r < IZR (Rtrunc r) + 1.
Proof.
  intros r Hr; unfold Rtrunc.
  destruct (Rle_dec 0 r); [|contradiction].
  destruct (base_Int_part r); lra.
Qed.

Lemma Rtrunc_neg :
  forall r : R, r < 0 -> IZR (Rtrunc r) - 1 < r <= IZR (Rtrunc r).
Proof.
  intros r Hr; unfold Rtrunc.
  destruct (Rle_dec 0 r); [lra|].
  rewrite opp_IZR.
  destruct (base_Int_part (- r)); lra.
Qed.

Lemma Rtrunc_small : forall r : R, 0 <= r < 1 -> Rtrunc r = 0%Z.
Proof.
  intros r [H0 H1]; unfold Rtrunc.
  destruct (Rle_dec 0 r); [|contradiction].
  symmetry; apply Int_part_spec; simpl; lra.
Qed.

Lemma fmod_small : forall a b : R, 0 < b -> 0 <= a < b -> fmod a b = a.
Proof.
  intros a b Hb [H0 H1]; unfold fmod.
  rewrite Rtrunc_small; [simpl; ring|].
  split.
  - apply Rmult_le_pos; [lra | left; now apply Rinv_0_lt_compat].
  - apply (Rmult_lt_reg_r b); [lra|]. unfold Rdiv.
    rewrite Rmult_assoc, Rinv_l by lra. lra.
Qed.

(** [fmod] keeps the sign of its first argument and stays below the
    modulus in magnitude. *)
Lemma fmod_range :
  forall a b : R, 0 < b ->
    (0 <= a -> 0 <= fmod a b < b) /\ (a < 0 -> - b < fmod a b <= 0).
Proof.
  intros a b Hb.
  assert (Hinv : 0 < / b) by now apply Rinv_0_lt_compat.
  assert (Hfm : fmod a b = (a / b - IZR (Rtrunc (a / b))) * b).
  { unfold fmod. field. lra. }
  split; intro Ha.
  - assert (Hq : 0 <= a / b) by (apply Rmult_le_pos; lra).
    destruct (Rtrunc_nonneg _ Hq). rewrite Hfm. nra.
  - assert (Hq : a / b < 0).
    { unfold Rdiv. replace 0 with (0 * / b) by ring.
      apply Rmult_lt_compat_r; assumption. }
    destruct (Rtrunc_neg _ Hq). rewrite Hfm. nra.
Qed.

Lemma TWO_PI_pos : 0 < TWO_PI.
Proof. unfold TWO_PI; pose proof PI_RGT_0; lra. Qed.

(** The two statements that wrap the heading, lines 88-89. *)
Lemma wrapped_heading_range :
  forall a : R,
    let t := fmod a TWO_PI in
    0 <= (if Rlt_dec t 0 then t + TWO_PI else t) < TWO_PI.
Proof.
  intros a t. pose proof TWO_PI_pos as Hpos.
  destruct (fmod_range a TWO_PI Hpos) as [Hnn Hneg].
  destruct (Rlt_dec t 0) as [Ht|Ht].
  - destruct (Rle_lt_dec 0 a) as [Ha|Ha].
    + specialize (Hnn Ha). unfold t in Ht. lra.
    + specialize (Hneg Ha). unfold t in *. lra.
  - destruct (Rle_lt_dec 0 a) as [Ha|Ha].
    + specialize (Hnn Ha). unfold t in *. lra.
    + specialize (Hneg Ha). unfold t in *. lra.
Qed.

(** ** Robot construction *)

(** C9: whatever [sigma_pos], [sigma_rot] and [sigma_sense] the caller passes,
    the robot is built with the deviations 0.1, 0.05 and 0.05, and so are its
    three noise distributions; two calls that differ only in these arguments
    build the same robot. *)
Theorem C9_robot_ignores_sigma_arguments :
  forall (sigma_pos sigma_rot sigma_sense x0 y0 theta0 : R) (g : Gen),
    let r := Robot.Robot sigma_pos sigma_rot sigma_sense x0 y0 theta0 g in
    Robot.sigma_pos_ r = 0.1 /\
    Robot.sigma_rot_ r = 0.05 /\
    Robot.sigma_sense_ r = 0.05 /\
    stddev (Robot.dist_pos_ r) = 0.1 /\
    stddev (Robot.dist_rot_ r) = 0.05 /\
    stddev (Robot.dist_sense_ r) = 0.05 /\
    forall sigma_pos' sigma_rot' sigma_sense' : R,
      Robot.Robot sigma_pos' sigma_rot' sigma_sense' x0 y0 theta0 g = r.
Proof.
  intros; subst r; unfold Robot.Robot; cbn.
  repeat split; reflexivity.
Qed.

(** ** Initialisation *)

(** Running the loop for [k] passes appends exactly [k] particles of weight
    [1 / num_particles] behind the particles already present, and touches
    nothing but the population and the generator. *)
Lemma initialize_loop_appends :
  forall (nx ny nt : normal_distribution) (n : Z) (k : nat) (pf : ParticleFilter.t),
  exists (added : list Particle) (g : Gen),
    initialize_loop nx ny nt n k pf
    = Normal tt (with_gen (with_particles pf (particles_ pf ++ added)) g)
    /\ length added = k
    /\ Forall (fun p => weight p = 1 / IZR n) added
    /\ (k = 0%nat -> g = gen_ pf).
Proof.
  intros nx ny nt n k; induction k as [|k IH]; intro pf.
  - exists [], (gen_ pf); cbn. rewrite app_nil_r.
    destruct pf; repeat split; auto.
  - set (p := mkParticle
                (fst (draw_normal nx (gen_ pf)))
                (fst (draw_normal ny (advance (gen_ pf))))
                (fst (draw_normal nt (advance (advance (gen_ pf)))))
                (1 / IZR n)).
    set (pf1 := with_particles
                  (with_gen pf (advance (advance (advance (gen_ pf)))))
                  (particles_ pf ++ [p])).
    destruct (IH pf1) as (added & g & Hrun & Hlen & Hw & _).
    exists (p :: added), g.
    split; [|split; [|split]].
    + change (initialize_loop nx ny nt n (S k) pf)
        with (initialize_loop nx ny nt n k pf1).
      rewrite Hrun. unfold pf1, with_gen, with_particles; cbn.
      rewrite <- app_assoc. reflexivity.
    + cbn; now rewrite Hlen.
    + constructor; [reflexivity | exact Hw].
    + discriminate.
Qed.

Lemma initializeParticles_appends :
  forall (rx ry rt : R) (n : Z) (pf : ParticleFilter.t),
  exists (added : list Particle) (g : Gen),
    initializeParticles rx ry rt n pf
    = Normal tt (with_gen (with_particles pf (particles_ pf ++ added)) g)
    /\ length added = Z.to_nat n
    /\ Forall (fun p => weight p = 1 / IZR n) added
    /\ (Z.to_nat n = 0%nat -> g = gen_ pf).
Proof.
  intros rx ry rt n pf.
  exact (initialize_loop_appends
           (mk_normal rx (sigma_pos_ pf)) (mk_normal ry (sigma_pos_ pf))
           (mk_normal rt (sigma_rot_ pf)) n (Z.to_nat n) pf).
Qed.

(** C10: [initializeParticles] appends.  On a filter that already holds [M]
    particles a call with count [N] returns normally with [M + N] particles,
    the [M] old ones first and unchanged; calling it a second time with the
    same count leaves [M + N + N] particles, so the population is no longer
    the [N] of the first initialisation. *)
Theorem C10_initializeParticles_appends :
  forall (rx ry rt : R) (N : nat) (pf : ParticleFilter.t),
  exists pf' : ParticleFilter.t,
    initializeParticles rx ry rt (Z.of_nat N) pf = Normal tt pf'
    /\ length (particles_ pf') = (length (particles_ pf) + N)%nat
    /\ firstn (length (particles_ pf)) (particles_ pf') = particles_ pf
    /\ forall rx2 ry2 rt2 : R,
       exists pf'' : ParticleFilter.t,
         initializeParticles rx2 ry2 rt2 (Z.of_nat N) pf' = Normal tt pf''
         /\ length (particles_ pf'')
            = (length (particles_ pf) + N + N)%nat.
Proof.
  intros rx ry rt N pf.
  destruct (initializeParticles_appends rx ry rt (Z.of_nat N) pf)
    as (added & g & Hrun & Hlen & _ & _).
  rewrite Nat2Z.id in Hlen.
  eexists; split; [exact Hrun|].
  assert (Hsize : length (particles_ pf ++ added)
                  = (length (particles_ pf) + N)%nat)
    by (rewrite length_app, Hlen; reflexivity).
  split; [|split].
  - exact Hsize.
  - cbn. rewrite firstn_app, Nat.sub_diag, firstn_all; cbn.
    apply app_nil_r.
  - intros rx2 ry2 rt2.
    destruct (initializeParticles_appends rx2 ry2 rt2 (Z.of_nat N)
                (with_gen (with_particles pf (particles_ pf ++ added)) g))
      as (added2 & g2 & Hrun2 & Hlen2 & _ & _).
    rewrite Nat2Z.id in Hlen2.
    eexists; split; [exact Hrun2|].
    cbn. rewrite length_app, Hsize, Hlen2. reflexivity.
Qed.

(** C5, as the code behaves: no configuration is rejected.  For a count
    [N <= 0], or a negative deviation, the constructor stores the deviations
    unchecked and [initializeParticles] returns normally; the population it
    leaves on a new filter has [max N 0] particles (none when [N <= 0]), each
    of weight [1 / N]. *)
Theorem C5_no_configuration_is_rejected :
  forall (sigma_pos sigma_rot sigma_sense : R) (g : Gen) (rx ry rt : R) (N : Z),
    (N <= 0)%Z \/ sigma_pos < 0 \/ sigma_rot < 0 \/ sigma_sense < 0 ->
    exists pf' : ParticleFilter.t,
      initializeParticles rx ry rt N
        (ParticleFilter sigma_pos sigma_rot sigma_sense g)
      = Normal tt pf'
      /\ sigma_pos_ pf' = sigma_pos
      /\ sigma_rot_ pf' = sigma_rot
      /\ sigma_sense_ pf' = sigma_sense
      /\ length (particles_ pf') = Z.to_nat N
      /\ Forall (fun p => weight p = 1 / IZR N) (particles_ pf').
Proof.
  intros sp sr ss g rx ry rt N _.
  destruct (initializeParticles_appends rx ry rt N (ParticleFilter sp sr ss g))
    as (added & g' & Hrun & Hlen & Hw & _).
  eexists; split; [exact Hrun|].
  cbn. repeat split; assumption.
Qed.

Lemma C5_no_configuration_is_rejected_witness :
  ((0 <= 0)%Z \/ 0.1 < 0 \/ 0.05 < 0 \/ 0.05 < 0)
  /\ exists pf' : ParticleFilter.t,
      initializeParticles 1 1 0 0 (ParticleFilter 0.1 0.05 0.05 gen_zero)
      = Normal tt pf'
      /\ sigma_pos_ pf' = 0.1
      /\ sigma_rot_ pf' = 0.05
      /\ sigma_sense_ pf' = 0.05
      /\ length (particles_ pf') = Z.to_nat 0
      /\ Forall (fun p => weight p = 1 / IZR 0) (particles_ pf').
Proof.
  split.
  - left; lia.
  - apply (C5_no_configuration_is_rejected 0.1 0.05 0.05 gen_zero 1 1 0 0).
    left; lia.
Defined.

(** C5 as stated fails: with count 0 the call returns normally and leaves
    the new filter as it was, with an empty population; with deviation -1
    and count 1 it returns normally too. *)
Lemma C5_counterexample :
  initializeParticles 1 1 0 0 pf_fresh = Normal tt pf_fresh
  /\ particles_ pf_fresh = []
  /\ (forall pf', initializeParticles 1 1 0 0 pf_fresh
                  <> Throws InvalidConfiguration pf')
  /\ (forall pf', initializeParticles 1 1 0 1 (ParticleFilter (-1) (-1) (-1) gen_zero)
                  <> Throws InvalidConfiguration pf').
Proof.
  repeat split; intros; discriminate.
Qed.

(** ** Prediction *)

Lemma moveParticle_unfold :
  forall (p : Particle) (distance rotation : R) (pf : ParticleFilter.t),
    let g := gen_ pf in
    let noise_pos := fst (draw_normal (dist_pos_ pf) g) in
    let noise_rot := fst (draw_normal (dist_rot_ pf) (advance g)) in
    let noisy_distance := distance + noise_pos in
    let t := fmod (theta p + (rotation + noise_rot)) TWO_PI in
    moveParticle p distance rotation pf
    = Normal (mkParticle (x p + noisy_distance * cos (theta p))
                         (y p + noisy_distance * sin (theta p))
                         (if Rlt_dec t 0 then t + TWO_PI else t)
                         (weight p))
             (with_gen pf (advance (advance g))).
Proof. reflexivity. Qed.

(** [updateMotion] moves every particle, draws from the generator, and
    touches nothing else. *)
Lemma for_each_moveParticle :
  forall (distance rotation : R) (ps : list Particle) (pf : ParticleFilter.t),
  exists (ps' : list Particle) (g : Gen),
    for_each (fun p => moveParticle p distance rotation) ps pf
    = Normal ps' (with_gen pf g)
    /\ length ps' = length ps
    /\ Forall (fun p => 0 <= theta p < TWO_PI) ps'
    /\ discrete_variate g = discrete_variate (gen_ pf).
Proof.
  intros distance rotation ps; induction ps as [|p ps IH]; intro pf.
  - exists [], (gen_ pf). destruct pf; cbn; auto.
  - pose proof (moveParticle_unfold p distance rotation pf) as Hmove.
    cbv zeta in Hmove.
    destruct (IH (with_gen pf (advance (advance (gen_ pf)))))
      as (ps' & g & Hrun & Hlen & Hall & Htape).
    eexists (_ :: ps'), g.
    split; [|split; [|split]].
    + cbn [for_each].
      rewrite (bind_normal _ _ _ _ _ _ _ Hmove), (bind_normal _ _ _ _ _ _ _ Hrun).
      reflexivity.
    + cbn; now rewrite Hlen.
    + constructor; [|exact Hall]. cbn [theta]. apply wrapped_heading_range.
    + exact Htape.
Qed.

Lemma updateMotion_spec :
  forall (distance rotation : R) (pf : ParticleFilter.t),
  exists (ps' : list Particle) (g : Gen),
    updateMotion distance rotation pf
    = Normal tt (with_particles (with_gen pf g) ps')
    /\ length ps' = length (particles_ pf)
    /\ Forall (fun p => 0 <= theta p < TWO_PI) ps'
    /\ discrete_variate g = discrete_variate (gen_ pf).
Proof.
  intros distance rotation pf.
  destruct (for_each_moveParticle distance rotation (particles_ pf) pf)
    as (ps' & g & Hrun & Hlen & Hall & Htape).
  exists ps', g. split; [|auto].
  unfold updateMotion.
  rewrite bind_gets.
  rewrite (bind_normal _ _ _ _ _ _ _ Hrun). reflexivity.
Qed.

(** ** Weighting *)

Lemma nth_error_skipn_head :
  forall (A : Type) (i : nat) (l : list A),
    nth_error l i = hd_error (skipn i l) /\ skipn (S i) l = tl (skipn i l).
Proof.
  intros A i; induction i as [|i IH]; intros [|a l]; cbn; auto.
Qed.

Section Weighting.

Variable sigma : R.
Let gauss_norm : R := 1 / sqrt (2 * PI * sigma * sigma).
Let denom : R := 2 * sigma * sigma.

Lemma likelihood_loop_spec :
  forall (p : Particle) (measurements : list R) (landmarks : list Vector2f)
         (i : nat) (w : R),
    likelihood_loop gauss_norm denom p measurements landmarks i w
    = option_map (Rmult w) (likelihood sigma p (skipn i measurements) landmarks).
Proof.
  intros p ms lms; induction lms as [|lm lms IH]; intros i w.
  - cbn [likelihood_loop likelihood option_map]. apply f_equal. ring.
  - cbn [likelihood_loop likelihood].
    destruct (nth_error_skipn_head R i ms) as [Hnth Hskip].
    rewrite Hnth. destruct (skipn i ms) as [|m ms'] eqn:Hs; cbn [hd_error].
    + reflexivity.
    + rewrite IH, Hskip. cbn [tl].
      destruct (likelihood sigma p ms' lms) as [L|]; cbn [option_map];
        [|reflexivity].
      apply f_equal. unfold gaussian_density, expected_range, gauss_norm, denom. ring.
Qed.

Lemma likelihood_loop_start :
  forall (p : Particle) (measurements : list R) (landmarks : list Vector2f),
    likelihood_loop gauss_norm denom p measurements landmarks 0 1
    = likelihood sigma p measurements landmarks.
Proof.
  intros p ms lms. rewrite likelihood_loop_spec. cbn [skipn].
  destruct (likelihood sigma p ms lms); cbn [option_map];
    [apply f_equal; ring | reflexivity].
Qed.

(** The outer loop gives every particle its likelihood and adds the
    likelihoods to the running total; it is undefined exactly when some
    particle has no likelihood. *)
Lemma weight_loop_spec :
  forall (measurements : list R) (landmarks : list Vector2f)
         (ps : list Particle) (total : R),
    match weight_loop gauss_norm denom measurements landmarks ps total with
    | Some (ps', total') =>
        exists Ls : list R,
          Forall2 (fun p L => likelihood sigma p measurements landmarks = Some L)
                  ps Ls
          /\ ps' = reweighted ps Ls
          /\ total' = total + Rsum Ls
    | None =>
        exists p, In p ps /\ likelihood sigma p measurements landmarks = None
    end.
Proof.
  intros ms lms ps; induction ps as [|p ps IH]; intro total.
  - cbn. exists []. split; [constructor | split; [reflexivity | unfold Rsum; cbn [fold_right]; ring]].
  - cbn [weight_loop]. cbn [bind option_monad]. rewrite likelihood_loop_start.
    destruct (likelihood sigma p ms lms) as [L|] eqn:HL.
    2:{ exists p. split; [left; reflexivity | exact HL]. }
    cbn [weight].
    specialize (IH (total + L)).
    destruct (weight_loop gauss_norm denom ms lms ps (total + L))
      as [[ps' total']|].
    + destruct IH as (Ls & Hall & Hps & Htot).
      exists (L :: Ls). split; [|split].
      * constructor; assumption.
      * cbn. rewrite Hps. reflexivity.
      * rewrite Htot. unfold Rsum. cbn [fold_right snd]. ring.
    + destruct IH as (q & Hin & Hq).
      exists q. split; [right; exact Hin | exact Hq].
Qed.

End Weighting.

Lemma likelihood_defined :
  forall (sigma : R) (p : Particle) (lms : list Vector2f) (ms : list R),
    (length lms <= length ms)%nat ->
    exists L, likelihood sigma p ms lms = Some L.
Proof.
  intros sigma p lms; induction lms as [|lm lms IH]; intros ms Hlen.
  - exists 1. reflexivity.
  - destruct ms as [|m ms]; cbn in Hlen; [lia|].
    destruct (IH ms) as [L HL]; [lia|].
    cbn. rewrite HL. eexists; reflexivity.
Qed.

Lemma likelihood_firstn :
  forall (sigma : R) (p : Particle) (lms : list Vector2f) (ms : list R),
    likelihood sigma p (firstn (length lms) ms) lms = likelihood sigma p ms lms.
Proof.
  intros sigma p lms; induction lms as [|lm lms IH]; intros ms.
  - reflexivity.
  - destruct ms as [|m ms]; cbn; [reflexivity|]. now rewrite IH.
Qed.


Lemma Forall2_length_eq :
  forall (A B : Type) (P : A -> B -> Prop) (l : list A) (l' : list B),
    Forall2 P l l' -> length l = length l'.
Proof. intros A B P l l' H; induction H; cbn; congruence. Qed.

Lemma reweighted_length :
  forall (ps : list Particle) (ws : list R),
    length ps = length ws -> length (reweighted ps ws) = length ps.
Proof.
  intros ps ws H. unfold reweighted.
  rewrite length_map, length_combine, <- H. apply Nat.min_id.
Qed.

Lemma normalize_reweighted :
  forall (total : R) (ps : list Particle) (ws : list R),
    normalize total (reweighted ps ws)
    = reweighted ps (map (fun w => w / total) ws).
Proof.
  intros total; induction ps as [|p ps IH]; intros [|w ws]; cbn; try reflexivity.
  f_equal. apply IH.
Qed.

(** What [calculateWeights] does, in terms of the likelihoods: it never
    throws; it is undefined exactly when a particle has no likelihood;
    otherwise the new weights are the likelihoods, divided by their sum when
    that sum is positive. *)
Lemma calculateWeights_spec :
  forall (ms : list R) (lms : list Vector2f) (pf : ParticleFilter.t),
    match calculateWeights ms lms pf with
    | Normal _ pf' =>
        exists Ls : list R,
          Forall2 (fun p L => likelihood (sigma_sense_ pf) p ms lms = Some L)
                  (particles_ pf) Ls
          /\ pf' = with_particles pf
                     (reweighted (particles_ pf)
                        (if Rlt_dec 0 (Rsum Ls)
                         then map (fun L => L / Rsum Ls) Ls else Ls))
    | Throws _ _ => False
    | Undefined =>
        exists p, In p (particles_ pf)
                  /\ likelihood (sigma_sense_ pf) p ms lms = None
    end.
Proof.
  intros ms lms pf. unfold calculateWeights.
  pose proof (weight_loop_spec (sigma_sense_ pf) ms lms (particles_ pf) 0) as H.
  destruct (weight_loop _ _ ms lms (particles_ pf) 0) as [[ps' total]|].
  - destruct H as (Ls & Hall & Hps & Htot).
    rewrite Rplus_0_l in Htot. subst ps' total.
    destruct (Rlt_dec 0 (Rsum Ls)) as [Hpos|Hnpos] eqn:Hdec;
      exists Ls; (split; [exact Hall|]); rewrite Hdec.
    + rewrite normalize_reweighted. reflexivity.
    + reflexivity.
  - exact H.
Qed.

Lemma calculateWeights_returns :
  forall (ms : list R) (lms : list Vector2f) (pf : ParticleFilter.t),
    (length lms <= length ms)%nat ->
    exists pf', calculateWeights ms lms pf = Normal tt pf'.
Proof.
  intros ms lms pf Hlen.
  pose proof (calculateWeights_spec ms lms pf) as H.
  destruct (calculateWeights ms lms pf) as [[] pf'| |].
  - exists pf'; reflexivity.
  - contradiction.
  - destruct H as (p & _ & Hnone).
    destruct (likelihood_defined (sigma_sense_ pf) p lms ms Hlen) as [L HL].
    congruence.
Qed.

Lemma calculateWeights_size :
  forall (ms : list R) (lms : list Vector2f) (pf pf' : ParticleFilter.t),
    calculateWeights ms lms pf = Normal tt pf' ->
    length (particles_ pf') = length (particles_ pf)
    /\ gen_ pf' = gen_ pf.
Proof.
  intros ms lms pf pf' Hrun.
  pose proof (calculateWeights_spec ms lms pf) as H. rewrite Hrun in H.
  destruct H as (Ls & Hall & ->). cbn [particles_ with_particles gen_].
  split; [|reflexivity].
  apply reweighted_length. rewrite (Forall2_length_eq _ _ _ _ _ Hall).
  destruct (Rlt_dec 0 (Rsum Ls)); [now rewrite length_map | reflexivity].
Qed.

Section WeightingTruncation.

Variable sigma : R.
Let gauss_norm : R := 1 / sqrt (2 * PI * sigma * sigma).
Let denom : R := 2 * sigma * sigma.

(** Measurements beyond the last landmark are never read. *)
Lemma weight_loop_firstn :
  forall (ms : list R) (lms : list Vector2f) (ps : list Particle) (total : R),
    weight_loop gauss_norm denom (firstn (length lms) ms) lms ps total
    = weight_loop gauss_norm denom ms lms ps total.
Proof.
  intros ms lms ps; induction ps as [|p ps IH]; intro total.
  - reflexivity.
  - cbn [weight_loop bind option_monad].
    unfold gauss_norm, denom.
    rewrite !likelihood_loop_start, likelihood_firstn.
    destruct (likelihood sigma p ms lms) as [L|]; [|reflexivity].
    fold gauss_norm denom. rewrite IH. reflexivity.
Qed.

End WeightingTruncation.

Lemma calculateWeights_firstn :
  forall (ms : list R) (lms : list Vector2f) (pf : ParticleFilter.t),
    calculateWeights (firstn (length lms) ms) lms pf = calculateWeights ms lms pf.
Proof.
  intros ms lms pf. unfold calculateWeights.
  rewrite weight_loop_firstn. reflexivity.
Qed.

(** C4, as the code behaves: no length check is made and nothing is thrown.
    With more measurements than landmarks the weighting returns normally,
    and its result is exactly that of weighting with the measurements cut
    to the number of landmarks: the surplus is ignored and the weights are
    overwritten. *)
Theorem C4_surplus_measurements_are_ignored :
  forall (pf : ParticleFilter.t) (ms : list R) (lms : list Vector2f),
    (length lms < length ms)%nat ->
    exists pf' : ParticleFilter.t,
      calculateWeights ms lms pf = Normal tt pf'
      /\ calculateWeights (firstn (length lms) ms) lms pf = Normal tt pf'
      /\ length (firstn (length lms) ms) = length lms.
Proof.
  intros pf ms lms Hlen.
  destruct (calculateWeights_returns ms lms pf) as [pf' Hrun]; [lia|].
  exists pf'. rewrite calculateWeights_firstn.
  repeat split; try exact Hrun.
  rewrite length_firstn. lia.
Qed.

Lemma C4_surplus_measurements_are_ignored_witness :
  (length (@nil Vector2f) < length [1])%nat
  /\ exists pf' : ParticleFilter.t,
      calculateWeights [1] [] pf_half = Normal tt pf'
      /\ calculateWeights (firstn (length (@nil Vector2f)) [1]) [] pf_half
         = Normal tt pf'
      /\ length (firstn (length (@nil Vector2f)) [1]) = length (@nil Vector2f).
Proof.
  split.
  - cbn; lia.
  - apply (C4_surplus_measurements_are_ignored pf_half [1] []). cbn; lia.
Defined.

(** C4 as stated fails: one measurement against no landmark is a length
    mismatch, yet the call returns normally and the particle's weight goes
    from one half to one. *)
Lemma C4_counterexample :
  length [1] <> length (@nil Vector2f)
  /\ map weight (particles_ pf_half) = [1 / 2]
  /\ exists pf' : ParticleFilter.t,
      calculateWeights [1] [] pf_half = Normal tt pf'
      /\ map weight (particles_ pf') = [1]
      /\ map weight (particles_ pf') <> map weight (particles_ pf_half).
Proof.
  split; [discriminate|]. split; [reflexivity|].
  assert (Hpos : 0 < 0 + 1) by lra.
  eexists. split; [|split].
  - unfold calculateWeights; cbn.
    destruct (Rlt_dec 0 (0 + 1)) as [_|Hn]; [reflexivity | contradiction].
  - cbn. f_equal. field.
  - cbn. intro E. injection E as E. lra.
Qed.

(** ** State estimation *)




Lemma estimateState_returns :
  forall pf : ParticleFilter.t, exists v : Vector3f, estimateState pf = Normal v pf.
Proof.
  intro pf. unfold estimateState. rewrite bind_gets.
  destruct (sums (particles_ pf)) as [[[sum_x sum_y] sum_sin] sum_cos].
  eexists; reflexivity.
Qed.


(** C6 as stated fails: on the new, still empty filter the call returns
    normally. *)
Lemma C6_counterexample :
  particles_ pf_fresh = []
  /\ forall pf', estimateState pf_fresh <> Throws EmptyPopulation pf'.
Proof.
  split; [reflexivity | intros pf'; discriminate].
Qed.

(** ** Degeneracy test and resampling *)

Lemma resample_loop_spec :
  forall (d : discrete_distribution) (k : nat) (acc : list Particle)
         (pf : ParticleFilter.t),
    (k = 0%nat \/
     forall j : nat, (discrete_variate (gen_ pf) j < length (particles_ pf))%nat) ->
    exists (drawn_particles : list Particle) (g : Gen),
      resample_loop d k acc pf = Normal (acc ++ drawn_particles) (with_gen pf g)
      /\ length drawn_particles = k
      /\ Forall (fun p => In p (particles_ pf)) drawn_particles
      /\ discrete_variate g = discrete_variate (gen_ pf).
Proof.
  intros d k; induction k as [|k IH]; intros acc pf Hdraw.
  - exists [], (gen_ pf). rewrite app_nil_r. destruct pf; cbn; auto.
  - destruct Hdraw as [Hk|Hdraw]; [discriminate|].
    pose proof (Hdraw (drawn (gen_ pf))) as Hin.
    destruct (nth_error (particles_ pf) (discrete_variate (gen_ pf) (drawn (gen_ pf))))
      as [p|] eqn:Hnth.
    2:{ apply nth_error_None in Hnth. lia. }
    destruct (IH (acc ++ [p]) (with_gen pf (advance (gen_ pf))))
      as (rest & g & Hrun & Hlen & Hall & Htape).
    { right. exact Hdraw. }
    exists (p :: rest), g.
    split; [|split; [|split]].
    + cbn [resample_loop].
      rewrite bind_sample_index, bind_gets.
      cbn [particles_ with_gen]. rewrite Hnth, Hrun, <- app_assoc. reflexivity.
    + cbn; now rewrite Hlen.
    + constructor; [eapply nth_error_In; exact Hnth | exact Hall].
    + exact Htape.
Qed.

Lemma resampleParticles_spec :
  forall pf : ParticleFilter.t,
    discrete_contract (mk_discrete (map weight (particles_ pf))) (gen_ pf) ->
    exists (ps' : list Particle) (g : Gen),
      resampleParticles pf = Normal tt (with_particles (with_gen pf g) ps')
      /\ length ps' = length (particles_ pf)
      /\ Forall (fun p => In p (particles_ pf)) ps'
      /\ discrete_variate g = discrete_variate (gen_ pf).
Proof.
  intros pf Hcontract.
  destruct (resample_loop_spec (mk_discrete (map weight (particles_ pf)))
              (length (particles_ pf)) [] pf)
    as (ps' & g & Hrun & Hlen & Hall & Htape).
  { destruct (particles_ pf) as [|p ps] eqn:Hps; [left; reflexivity|].
    right. intro j. specialize (Hcontract j).
    cbn [discrete_weights] in Hcontract. rewrite length_map in Hcontract.
    cbn [length] in *. lia. }
  exists ps', g. split; [|auto].
  unfold resampleParticles.
  rewrite bind_gets.
  rewrite (bind_normal _ _ _ _ _ _ _ Hrun). reflexivity.
Qed.

Lemma resampleIfNeeded_unfold :
  forall pf : ParticleFilter.t,
    resampleIfNeeded pf
    = if Rlt_dec (Neff (particles_ pf)) (INR (length (particles_ pf) / 2))
      then resampleParticles pf
      else Normal tt pf.
Proof.
  intro pf. unfold resampleIfNeeded. rewrite bind_gets.
  destruct (Rlt_dec _ _); reflexivity.
Qed.

Lemma resampleIfNeeded_size :
  forall pf : ParticleFilter.t,
    discrete_contract (mk_discrete (map weight (particles_ pf))) (gen_ pf) ->
    exists pf' : ParticleFilter.t,
      resampleIfNeeded pf = Normal tt pf'
      /\ length (particles_ pf') = length (particles_ pf).
Proof.
  intros pf Hcontract. rewrite resampleIfNeeded_unfold.
  destruct (Rlt_dec _ _).
  - destruct (resampleParticles_spec pf Hcontract)
      as (ps' & g & Hrun & Hlen & _ & _).
    eexists; split; [exact Hrun | exact Hlen].
  - exists pf; split; reflexivity.
Qed.

(** One filter step returns whenever every landmark has a measurement, and
    keeps the number of particles. *)
Lemma updateAndEstimate_size :
  forall (distance rotation : R) (ms : list R) (lms : list Vector2f)
         (pf : ParticleFilter.t),
    discrete_contract (mk_discrete (map weight (particles_ pf))) (gen_ pf) ->
    (length lms <= length ms)%nat ->
    exists (v : Vector3f) (pf' : ParticleFilter.t),
      updateAndEstimate distance rotation ms lms pf = Normal v pf'
      /\ length (particles_ pf') = length (particles_ pf).
Proof.
  intros distance rotation ms lms pf Hcontract Hlen.
  destruct (updateMotion_spec distance rotation pf)
    as (ps1 & g1 & Hmove & Hlen1 & _ & Htape1).
  destruct (calculateWeights_returns ms lms
              (with_particles (with_gen pf g1) ps1) Hlen) as [pf2 Hweigh].
  destruct (calculateWeights_size _ _ _ _ Hweigh) as [Hlen2 Hgen2].
  cbn [particles_ with_particles gen_ with_gen] in Hlen2, Hgen2.
  destruct (resampleIfNeeded_size pf2) as (pf3 & Hres & Hlen3).
  { intro k. specialize (Hcontract k).
    cbn [discrete_weights] in *. rewrite length_map in *.
    rewrite Hgen2, Htape1, Hlen2, Hlen1. exact Hcontract. }
  destruct (estimateState_returns pf3) as [v Hest].
  exists v, pf3. split; [|congruence].
  unfold updateAndEstimate.
  rewrite (bind_normal _ _ _ _ _ _ _ Hmove), (bind_normal _ _ _ _ _ _ _ Hweigh),
    (bind_normal _ _ _ _ _ _ _ Hres), (bind_normal _ _ _ _ _ _ _ Hest).
  reflexivity.
Qed.

(** C7: as long as the discrete distribution delivers indices within its
    weight range, [resampleParticles] returns a population of exactly as
    many particles as before, each one equal (pose and weight) to a particle
    of the population it was given; and [updateMotion], [calculateWeights],
    [estimateState] and the whole step [updateAndEstimate] keep the number
    of particles as well. *)
Theorem C7_population_size_is_preserved :
  forall pf : ParticleFilter.t,
    discrete_contract (mk_discrete (map weight (particles_ pf))) (gen_ pf) ->
    (exists pf' : ParticleFilter.t,
        resampleParticles pf = Normal tt pf'
        /\ length (particles_ pf') = length (particles_ pf)
        /\ Forall (fun p' => In p' (particles_ pf)) (particles_ pf'))
    /\ (forall distance rotation : R,
        exists pf' : ParticleFilter.t,
          updateMotion distance rotation pf = Normal tt pf'
          /\ length (particles_ pf') = length (particles_ pf))
    /\ (forall (ms : list R) (lms : list Vector2f),
        (length lms <= length ms)%nat ->
        exists pf' : ParticleFilter.t,
          calculateWeights ms lms pf = Normal tt pf'
          /\ length (particles_ pf') = length (particles_ pf))
    /\ (exists v : Vector3f, estimateState pf = Normal v pf)
    /\ (forall (distance rotation : R) (ms : list R) (lms : list Vector2f),
        (length lms <= length ms)%nat ->
        exists (v : Vector3f) (pf' : ParticleFilter.t),
          updateAndEstimate distance rotation ms lms pf = Normal v pf'
          /\ length (particles_ pf') = length (particles_ pf)).
Proof.
  intros pf Hcontract. split; [|split; [|split; [|split]]].
  - destruct (resampleParticles_spec pf Hcontract)
      as (ps' & g & Hrun & Hlen & Hall & _).
    eexists; split; [exact Hrun|]. split; [exact Hlen | exact Hall].
  - intros distance rotation.
    destruct (updateMotion_spec distance rotation pf)
      as (ps' & g & Hrun & Hlen & _ & _).
    eexists; split; [exact Hrun | exact Hlen].
  - intros ms lms Hlen.
    destruct (calculateWeights_returns ms lms pf Hlen) as [pf' Hrun].
    exists pf'; split; [exact Hrun|].
    apply (calculateWeights_size _ _ _ _ Hrun).
  - apply estimateState_returns.
  - intros distance rotation ms lms Hlen.
    apply updateAndEstimate_size; assumption.
Qed.

Lemma C7_population_size_is_preserved_witness :
  discrete_contract (mk_discrete (map weight (particles_ pf_three))) (gen_ pf_three)
  /\ exists pf' : ParticleFilter.t,
      resampleParticles pf_three = Normal tt pf'
      /\ length (particles_ pf') = 3%nat
      /\ Forall (fun p' => In p' (particles_ pf_three)) (particles_ pf').
Proof.
  assert (Hcontract : discrete_contract
                        (mk_discrete (map weight (particles_ pf_three)))
                        (gen_ pf_three))
    by (intro k; cbn; lia).
  split; [exact Hcontract|].
  exact (proj1 (C7_population_size_is_preserved pf_three Hcontract)).
Defined.

Lemma Neff_pf_three : Neff (particles_ pf_three) = 1000000 / 818201.
Proof.
  unfold Neff, total_weight_squared; cbn [particles_ pf_three with_particles
                                           fold_left weight].
  replace (0 + 0.9 * 0.9 + 0.09 * 0.09 + 0.01 * 0.01 + 1e-6)
    with (818201 / 1000000) by lra.
  field.
Qed.

(** The half of C1 that the code satisfies: a population whose effective
    sample size is at least half its size is left as it is. *)
Lemma resampleIfNeeded_unchanged_above_half :
  forall pf : ParticleFilter.t,
    INR (length (particles_ pf)) / 2 <= Neff (particles_ pf) ->
    resampleIfNeeded pf = Normal tt pf.
Proof.
  intros pf Hhigh. rewrite resampleIfNeeded_unfold.
  destruct (Rlt_dec _ _) as [Hlt|_]; [|reflexivity].
  exfalso.
  assert (Hdiv : INR (length (particles_ pf) / 2) <= INR (length (particles_ pf)) / 2).
  { pose proof (Nat.div_mod_eq (length (particles_ pf)) 2) as Hdm.
    pose proof (Nat.mod_upper_bound (length (particles_ pf)) 2) as Hmod.
    assert (Hle : (2 * (length (particles_ pf) / 2) <= length (particles_ pf))%nat)
      by lia.
    apply le_INR in Hle. rewrite mult_INR in Hle.
    change (INR 2) with 2 in Hle. lra. }
  lra.
Qed.

(** On a population of even size the test is the one C1 states. *)
Lemma resampleIfNeeded_even_size :
  forall pf : ParticleFilter.t,
    Nat.even (length (particles_ pf)) = true ->
    resampleIfNeeded pf
    = if Rlt_dec (Neff (particles_ pf)) (INR (length (particles_ pf)) / 2)
      then resampleParticles pf
      else Normal tt pf.
Proof.
  intros pf Heven. rewrite resampleIfNeeded_unfold.
  apply Nat.even_spec in Heven. destruct Heven as [k Hk].
  rewrite Hk.
  replace (2 * k / 2)%nat with k
    by (rewrite Nat.mul_comm, Nat.div_mul; [reflexivity | discriminate]).
  rewrite mult_INR. change (INR 2) with 2.
  replace (2 * INR k / 2) with (INR k) by field.
  reflexivity.
Qed.

(** On three particles with weights 0.9, 0.09 and 0.01 the effective sample
    size, about 1.22, is below half the size, 1.5, but not below the
    truncated quotient [3 / 2 = 1] the code compares with: the population is
    left as it is, where resampling would have replaced it. *)
Lemma three_particles_not_resampled :
  Neff (particles_ pf_three) < INR (length (particles_ pf_three)) / 2
  /\ INR (length (particles_ pf_three) / 2) = 1
  /\ resampleIfNeeded pf_three = Normal tt pf_three
  /\ resampleParticles pf_three <> Normal tt pf_three.
Proof.
  split; [|split; [|split]].
  - rewrite Neff_pf_three. cbn [particles_ pf_three with_particles length].
    simpl INR. lra.
  - reflexivity.
  - rewrite resampleIfNeeded_unfold.
    destruct (Rlt_dec _ _) as [Hlt|_]; [|reflexivity].
    exfalso. rewrite Neff_pf_three in Hlt.
    cbn [particles_ pf_three with_particles length] in Hlt.
    change (INR (3 / 2)) with 1 in Hlt. lra.
  - intro E. apply (f_equal (fun o => match o with
                                       | Normal _ pf' => drawn (gen_ pf')
                                       | _ => 0%nat
                                       end)) in E.
    cbn in E. discriminate.
Qed.

(** *** A run on three particles *)

(** One pass of the initialisation loop, with the object written out. *)
Lemma initialize_loop_step :
  forall (nx ny nt : normal_distribution) (n : Z) (k : nat) (pf : ParticleFilter.t),
    let g := gen_ pf in
    let z := normal_variate g in
    let p := mkParticle (z (drawn g) * stddev nx + mean nx)
                        (z (S (drawn g)) * stddev ny + mean ny)
                        (z (S (S (drawn g))) * stddev nt + mean nt)
                        (1 / IZR n) in
    initialize_loop nx ny nt n (S k) pf
    = initialize_loop nx ny nt n k
        (ParticleFilter.mk
           (sigma_pos_ pf) (sigma_rot_ pf) (sigma_sense_ pf)
           (dist_pos_ pf) (dist_rot_ pf) (dist_sense_ pf)
           (particles_ pf ++ [p])
           (mk_gen z (discrete_variate g) (S (S (S (drawn g)))))).
Proof. reflexivity. Qed.

Lemma spread_initialised :
  initializeParticles 1 0 0 3 pf_spread = Normal tt (spread (1 / 3) (1 / 3) (1 / 3) 9).
Proof.
  unfold initializeParticles. rewrite !bind_gets.
  change (Z.to_nat 3) with 3%nat.
  rewrite !initialize_loop_step. cbv zeta.
  cbn [initialize_loop ret M_monad].
  unfold spread, with_gen, with_particles.
  cbn [gen_ pf_spread ParticleFilter particles_ drawn gen_spread
       normal_variate discrete_variate Nat.eqb mean stddev app
       sigma_pos_ sigma_rot_ sigma_sense_ dist_pos_ dist_rot_ dist_sense_
       Robot.sigma_pos_ Robot.sigma_rot_ Robot.sigma_sense_ robot_main
       Robot.Robot].
  f_equal. f_equal.
  repeat (f_equal; try lra).
Qed.

(** A particle of heading 0 stays where it is when the control is (0, 0)
    and the next two variates are 0. *)
Lemma moveParticle_still :
  forall (p : Particle) (pf : ParticleFilter.t),
    theta p = 0 ->
    mean (dist_pos_ pf) = 0 -> mean (dist_rot_ pf) = 0 ->
    normal_variate (gen_ pf) (drawn (gen_ pf)) = 0 ->
    normal_variate (gen_ pf) (S (drawn (gen_ pf))) = 0 ->
    moveParticle p 0 0 pf = Normal p (with_gen pf (advance (advance (gen_ pf)))).
Proof.
  intros [px py pt pw] pf Ht Hmp Hmr Hz1 Hz2. cbn [theta] in Ht. subst pt.
  rewrite moveParticle_unfold.
  cbn [draw_normal fst advance normal_variate drawn x y theta weight].
  rewrite Hmp, Hmr, Hz1, Hz2, cos_0, sin_0.
  replace (0 + (0 + (0 * stddev (dist_rot_ pf) + 0))) with 0 by ring.
  rewrite (fmod_small 0 TWO_PI) by (pose proof TWO_PI_pos; lra).
  destruct (Rlt_dec 0 0) as [Hlt|_]; [lra|].
  f_equal. f_equal; ring.
Qed.

(** So does a whole population, when every variate still to come is 0. *)
Lemma for_each_still :
  forall (ps : list Particle) (pf : ParticleFilter.t),
    Forall (fun p => theta p = 0) ps ->
    mean (dist_pos_ pf) = 0 -> mean (dist_rot_ pf) = 0 ->
    (forall k : nat, (drawn (gen_ pf) <= k)%nat -> normal_variate (gen_ pf) k = 0) ->
    for_each (fun p => moveParticle p 0 0) ps pf
    = Normal ps
        (with_gen pf (mk_gen (normal_variate (gen_ pf)) (discrete_variate (gen_ pf))
                             (2 * length ps + drawn (gen_ pf)))).
Proof.
  induction ps as [|p ps IH]; intros pf Hall Hmp Hmr Hzero.
  - destruct pf as [? ? ? ? ? ? ? [? ? ?]]. reflexivity.
  - inversion Hall as [|? ? Hp Hps]; subst.
    cbn [for_each].
    rewrite (bind_normal _ _ _ _ _ _ _
               (moveParticle_still p pf Hp Hmp Hmr
                  (Hzero _ (Nat.le_refl _))
                  (Hzero _ (Nat.le_succ_diag_r _)))).
    rewrite (bind_normal _ _ _ _ _ _ _
               (IH (with_gen pf (advance (advance (gen_ pf)))) Hps Hmp Hmr
                   (fun k Hk => Hzero k (Nat.le_trans _ _ _
                                           (Nat.le_trans _ _ _
                                              (Nat.le_succ_diag_r _)
                                              (Nat.le_succ_diag_r _)) Hk)))).
    unfold with_gen.
    cbn [ret M_monad gen_ advance normal_variate discrete_variate drawn
         sigma_pos_ sigma_rot_ sigma_sense_ dist_pos_ dist_rot_ dist_sense_
         particles_ length].
    do 3 f_equal. lia.
Qed.

Lemma spread_moved :
  forall w1 w2 w3 : R,
    updateMotion 0 0 (spread w1 w2 w3 9) = Normal tt (spread w1 w2 w3 15).
Proof.
  intros w1 w2 w3.
  assert (Hheading : Forall (fun p => theta p = 0)
                            (particles_ (spread w1 w2 w3 9)))
    by (repeat constructor).
  assert (Hzero : forall k : nat,
             (drawn (gen_ (spread w1 w2 w3 9)) <= k)%nat ->
             normal_variate (gen_ (spread w1 w2 w3 9)) k = 0).
  { cbn [spread with_gen gen_ drawn normal_variate gen_spread].
    intros k Hk.
    destruct k as [|[|[|[|[|[|[|k]]]]]]]; try lia; reflexivity. }
  unfold updateMotion. rewrite bind_gets.
  rewrite (bind_normal _ _ _ _ _ _ _
             (for_each_still (particles_ (spread w1 w2 w3 9)) (spread w1 w2 w3 9)
                Hheading eq_refl eq_refl Hzero)).
  reflexivity.
Qed.

(** The range from a particle on the positive x axis to the landmark at the
    origin is its abscissa. *)
Lemma expected_range_on_axis :
  forall px pt pw : R,
    0 <= px -> expected_range (mkParticle px 0 pt pw) (0, 0) = px.
Proof.
  intros px pt pw Hpos. unfold expected_range. cbn [fst snd x y].
  replace ((0 - px) * (0 - px) + (0 - 0) * (0 - 0)) with (px * px) by ring.
  apply sqrt_square. exact Hpos.
Qed.

Lemma exp_minus_8_bounds : 1 / 6561 <= exp (- 8) <= 1 / 9.
Proof.
  assert (Hlow : 9 <= exp 8) by (pose proof (exp_ineq1_le 8); lra).
  assert (Hhigh : exp 8 <= 6561).
  { replace 8 with (1 + 1 + 1 + 1 + (1 + 1 + 1 + 1)) by ring.
    rewrite !exp_plus.
    pose proof exp_le_3 as H3. pose proof (exp_pos 1) as H0.
    assert (H2 : exp 1 * exp 1 <= 9) by nra.
    assert (H2p : 0 < exp 1 * exp 1) by nra.
    assert (H4 : exp 1 * exp 1 * exp 1 * exp 1 <= 81) by nra.
    assert (H4p : 0 < exp 1 * exp 1 * exp 1 * exp 1) by nra.
    nra. }
  replace (exp (- 8)) with (/ exp 8)
    by (rewrite <- exp_Ropp; f_equal; lra).
  pose proof (exp_pos 8) as Hpos.
  split.
  - unfold Rdiv. rewrite Rmult_1_l. apply Rinv_le_contravar; lra.
  - unfold Rdiv. rewrite Rmult_1_l. apply Rinv_le_contravar; lra.
Qed.

(** With weights [1 / s], [a / s], [a / s] for [s = 1 + 2 a] and [a] between
    1/6561 and 1/9, the effective sample size is at least 1 and below 3/2. *)
Lemma Neff_dominant_particle :
  forall a : R,
    1 / 6561 <= a <= 1 / 9 ->
    let s := 1 + 2 * a in
    1 <= 1 / (0 + 1 / s * (1 / s) + a / s * (a / s) + a / s * (a / s) + 1e-6) < 3 / 2.
Proof.
  intros a [Hlo Hhi] s.
  assert (Hs : 0 < s) by (unfold s; lra).
  assert (Hsum : 0 + 1 / s * (1 / s) + a / s * (a / s) + a / s * (a / s)
                 = (1 + 2 * a * a) / (s * s)) by (field; lra).
  rewrite Hsum.
  assert (Hss : 0 < s * s) by nra.
  set (q := (1 + 2 * a * a) / (s * s)).
  assert (Hq : q * (s * s) = 1 + 2 * a * a) by (unfold q; field; lra).
  assert (Hq_hi : q + 1e-6 <= 1).
  { assert (q <= 1 - 1e-6); [|lra].
    apply (Rmult_le_reg_r (s * s)); [exact Hss|]. rewrite Hq. unfold s. nra. }
  assert (Hq_lo : 2 / 3 < q + 1e-6).
  { assert (2 / 3 < q); [|lra].
    apply (Rmult_lt_reg_r (s * s)); [exact Hss|]. rewrite Hq. unfold s. nra. }
  assert (Hd : 0 < q + 1e-6) by lra.
  split.
  - apply (Rmult_le_reg_r (q + 1e-6)); [exact Hd|].
    unfold Rdiv. rewrite Rmult_assoc, Rinv_l by lra. lra.
  - apply (Rmult_lt_reg_r (q + 1e-6)); [exact Hd|].
    unfold Rdiv at 1. rewrite Rmult_assoc, Rinv_l by lra. lra.
Qed.

Lemma spread_likelihood :
  forall (px pt pw : R),
    0 <= px ->
    likelihood 0.05 (mkParticle px 0 pt pw) [1] [(0, 0)]
    = Some (1 / sqrt (2 * PI * 0.05 * 0.05) * exp (- (200 * ((1 - px) * (1 - px))))).
Proof.
  intros px pt pw Hpos. cbn [likelihood option_map].
  rewrite expected_range_on_axis by exact Hpos.
  unfold gaussian_density. apply f_equal.
  rewrite Rmult_1_r. do 2 f_equal.
  replace (2 * 0.05 * 0.05) with (1 / 200) by lra. field.
Qed.

Lemma spread_weighted :
  forall (w1 w2 w3 : R) (n : nat),
    let a := exp (- 8) in
    let s := 1 + 2 * a in
    calculateWeights [1] [(0, 0)] (spread w1 w2 w3 n)
    = Normal tt (spread (1 / s) (a / s) (a / s) n).
Proof.
  intros w1 w2 w3 n a s.
  pose proof exp_minus_8_bounds as [Ha_lo Ha_hi]. fold a in Ha_lo, Ha_hi.
  assert (Hroot : 0 < sqrt (2 * PI * 0.05 * 0.05)).
  { apply sqrt_lt_R0. pose proof PI_RGT_0. nra. }
  set (gn := 1 / sqrt (2 * PI * 0.05 * 0.05)).
  assert (Hgn : 0 < gn) by (unfold gn; apply Rdiv_lt_0_compat; lra).
  pose proof (calculateWeights_spec [1] [(0, 0)] (spread w1 w2 w3 n)) as Hspec.
  destruct (calculateWeights [1] [(0, 0)] (spread w1 w2 w3 n))
    as [[] pf'|e pf'|]; [|contradiction|].
  2:{ destruct Hspec as (p & Hin & Hnone).
      destruct (likelihood_defined (sigma_sense_ (spread w1 w2 w3 n)) p
                                   [(0, 0)] [1]) as [L HL]; [cbn; lia|].
      congruence. }
  destruct Hspec as (Ls & Hall & ->).
  cbn [particles_ spread with_gen with_particles] in Hall.
  change (sigma_sense_ (spread w1 w2 w3 n)) with 0.05 in Hall.
  inversion Hall as [|p1 L1 ps1 Ls1 H1 Hall1]; subst.
  inversion Hall1 as [|p2 L2 ps2 Ls2 H2 Hall2]; subst.
  inversion Hall2 as [|p3 L3 ps3 Ls3 H3 Hall3]; subst.
  inversion Hall3; subst.
  rewrite spread_likelihood in H1, H2, H3 by lra.
  injection H1 as <-. injection H2 as <-. injection H3 as <-.
  replace (- (200 * ((1 - 1) * (1 - 1)))) with 0 by ring.
  replace (- (200 * ((1 - 1.2) * (1 - 1.2)))) with (- 8) by lra.
  replace (- (200 * ((1 - 0.8) * (1 - 0.8)))) with (- 8) by lra.
  rewrite exp_0. fold gn a.
  assert (Htotal : Rsum [gn * 1; gn * a; gn * a] = gn * s)
    by (unfold Rsum, s; cbn [fold_right]; ring).
  rewrite Htotal.
  destruct (Rlt_dec 0 (gn * s)) as [_|Hn]; [|exfalso; apply Hn; unfold s; nra].
  unfold spread, with_gen, with_particles, reweighted.
  cbn [map combine fst snd x y theta particles_ gen_ sigma_pos_ sigma_rot_
       sigma_sense_ dist_pos_ dist_rot_ dist_sense_].
  f_equal. f_equal.
  assert (Hs : 0 < s) by (unfold s; lra).
  repeat (f_equal; try (field; lra)).
Qed.

Lemma Neff_spread_weighted :
  forall n : nat,
    let a := exp (- 8) in
    let s := 1 + 2 * a in
    1 <= Neff (particles_ (spread (1 / s) (a / s) (a / s) n)) < 3 / 2.
Proof.
  intros n a s.
  exact (Neff_dominant_particle a exp_minus_8_bounds).
Qed.

(** C1 on a run of the program.  A new filter is initialised with three
    particles, which the generator places at x = 1, 1.2 and 0.8 on the x
    axis, and takes one step with control (0, 0) and the measurement 1 of the
    landmark at the origin.  After the weighting pass the weights are
    [1 / s], [a / s], [a / s] with [a = exp (- 8)] and [s = 1 + 2 a]; the
    effective sample size, about 1.001, is below half the population size,
    1.5, so the population should be resampled.  The step returns with the
    weighted population untouched, and resampling would have changed the
    filter. *)
Theorem C1_odd_population_is_not_resampled :
  let a := exp (- 8) in
  let s := 1 + 2 * a in
  let pf_initial := spread (1 / 3) (1 / 3) (1 / 3) 9 in
  let pf_weighted := spread (1 / s) (a / s) (a / s) 15 in
  initializeParticles 1 0 0 3 pf_spread = Normal tt pf_initial
  /\ (updateMotion 0 0 ;; calculateWeights [1] [(0, 0)]) pf_initial
     = Normal tt pf_weighted
  /\ Neff (particles_ pf_weighted) < INR (length (particles_ pf_weighted)) / 2
  /\ (exists v : Vector3f,
        updateAndEstimate 0 0 [1] [(0, 0)] pf_initial = Normal v pf_weighted)
  /\ resampleParticles pf_weighted <> Normal tt pf_weighted.
Proof.
  intros a s pf_initial pf_weighted.
  pose proof (spread_moved (1 / 3) (1 / 3) (1 / 3)) as Hmove.
  pose proof (spread_weighted (1 / 3) (1 / 3) (1 / 3) 15) as Hweigh.
  pose proof (Neff_spread_weighted 15) as [Hlo Hhi].
  cbv zeta in Hweigh, Hlo, Hhi. fold a s pf_weighted in Hweigh, Hlo, Hhi.
  fold pf_initial in Hmove.
  split; [exact spread_initialised|].
  split; [rewrite (bind_normal _ _ _ _ _ _ _ Hmove); exact Hweigh|].
  split; [change (INR (length (particles_ pf_weighted))) with (INR 3);
          simpl INR; lra|].
  split.
  - destruct (estimateState_returns pf_weighted) as [v Hest].
    exists v. unfold updateAndEstimate.
    rewrite (bind_normal _ _ _ _ _ _ _ Hmove), (bind_normal _ _ _ _ _ _ _ Hweigh).
    assert (Hskip : resampleIfNeeded pf_weighted = Normal tt pf_weighted).
    { rewrite resampleIfNeeded_unfold.
      destruct (Rlt_dec _ _) as [Hlt|_]; [|reflexivity].
      exfalso.
      change (INR (length (particles_ pf_weighted) / 2)) with 1 in Hlt. lra. }
    rewrite (bind_normal _ _ _ _ _ _ _ Hskip), (bind_normal _ _ _ _ _ _ _ Hest).
    reflexivity.
  - intro E.
    apply (f_equal (fun o => match o with
                             | Normal _ pf' => drawn (gen_ pf')
                             | _ => 0%nat
                             end)) in E.
    cbn in E. discriminate.
Qed.

(** * Properties decided by rounding *)

(** The properties below depend on how binary32 rounds, so they are stated
    over [Binary32]. *)

Section Binary32Properties.

Import Binary32 Binary32.ParticleFilter.

(** ** Constants *)

Lemma TWO_PI_bits : TWO_PI = S754_finite false 13176795 (-21).
Proof. reflexivity. Qed.

Lemma PI_below_3_14159266 : PI < 3.14159266.
Proof.
  pose proof (PI_2_3_7_ineq 4) as [_ H].
  unfold PI_2_3_7_tg, tg_alt, Ratan_seq in H.
  cbn [sum_f_R0 Nat.mul Nat.add pow INR] in H.
  lra.
Qed.

(** The float [TWO_PI] is larger than the real number 2 pi. *)
Lemma TWO_PI_exceeds_two_pi : 2 * PI < to_R TWO_PI.
Proof.
  pose proof PI_below_3_14159266 as H.
  rewrite TWO_PI_bits. unfold to_R, cond_Zopp, powerRZ.
  change (Pos.to_nat 21) with 21%nat.
  lra.
Qed.

(** ** Prediction *)

(** With deviation 0 and mean 0 a draw is [+0], whatever finite variate the
    generator delivers. *)
Lemma draw_without_deviation :
  forall v : float, is_finite v = true -> add (mul v zero) zero = zero.
Proof.
  intros [s|s| |s m e] H; try discriminate; destruct s; reflexivity.
Qed.

Lemma moveParticle_unfold_binary32 :
  forall (libm : Libm) (p : Particle) (distance rotation : float)
         (pf : ParticleFilter.t),
    let g := gen_ pf in
    let noise_pos := fst (draw_normal (dist_pos_ pf) g) in
    let noise_rot := fst (draw_normal (dist_rot_ pf) (advance g)) in
    let noisy_distance := add distance noise_pos in
    let t := fmod (add (theta p) (add rotation noise_rot)) TWO_PI in
    moveParticle libm p distance rotation pf
    = Normal (mkParticle (add (x p) (mul noisy_distance (cos libm (theta p))))
                         (add (y p) (mul noisy_distance (sin libm (theta p))))
                         (if ltb t zero then add t TWO_PI else t)
                         (weight p))
             (with_gen pf (advance (advance g))).
Proof. reflexivity. Qed.

(** C8.  On a filter built with both process deviations 0, whatever finite
    variates the generator delivers, moving the particle at (0, 0, 0) by
    (distance 1, rotation 0) gives exactly (1, 0, 0), and by (distance 0,
    rotation pi / 2) gives exactly (0, 0, pi / 2).  The wrap of the heading
    misses [0, 2 pi): on the same filter a rotation of -1e-8 leaves the
    heading at [TWO_PI], and so does, on the filter of [main] with rotation
    0, a rotation noise of -4.8e-8; the float [TWO_PI] is not below itself
    and lies above 2 pi. *)
Theorem C8_wrapped_heading_reaches_TWO_PI :
  forall (libm : Libm) (sigma_sense w : float) (g : Gen),
    (forall k : nat, is_finite (normal_variate g k) = true) ->
    cos libm zero = one ->
    sin libm zero = zero ->
    let pf := ParticleFilter zero zero sigma_sense g in
    let pf' := with_gen pf (advance (advance g)) in
    let p := mkParticle zero zero zero w in
    moveParticle libm p one zero pf = Normal (mkParticle one zero zero w) pf'
    /\ moveParticle libm p zero HALF_PI pf
       = Normal (mkParticle zero zero HALF_PI w) pf'
    /\ moveParticle libm p zero (opp (literal 1 100000000)) pf
       = Normal (mkParticle zero zero TWO_PI w) pf'
    /\ moveParticle libm p one zero (pf_main gen_small_turn)
       = Normal (mkParticle one zero TWO_PI w)
                (with_gen (pf_main gen_small_turn)
                          (advance (advance gen_small_turn)))
    /\ ltb TWO_PI TWO_PI = false
    /\ 2 * PI < to_R TWO_PI.
Proof.
  intros libm sigma_sense w g Hfin Hcos Hsin pf pf' p.
  assert (H0 : forall k, add (mul (normal_variate g k) zero) zero = zero)
    by (intro k; apply draw_without_deviation, Hfin).
  repeat split.
  - unfold pf, pf', p. rewrite moveParticle_unfold_binary32.
    cbn [ParticleFilter dist_pos_ dist_rot_ gen_ draw_normal fst stddev mean
         x y theta weight advance drawn normal_variate].
    rewrite !H0, Hcos, Hsin. reflexivity.
  - unfold pf, pf', p. rewrite moveParticle_unfold_binary32.
    cbn [ParticleFilter dist_pos_ dist_rot_ gen_ draw_normal fst stddev mean
         x y theta weight advance drawn normal_variate].
    rewrite !H0, Hcos, Hsin. reflexivity.
  - unfold pf, pf', p. rewrite moveParticle_unfold_binary32.
    cbn [ParticleFilter dist_pos_ dist_rot_ gen_ draw_normal fst stddev mean
         x y theta weight advance drawn normal_variate].
    rewrite !H0, Hcos, Hsin. reflexivity.
  - unfold p. rewrite moveParticle_unfold_binary32.
    cbn [x y theta weight]. rewrite Hcos, Hsin. reflexivity.
  - apply TWO_PI_exceeds_two_pi.
Qed.

Lemma C8_wrapped_heading_reaches_TWO_PI_witness :
  (forall k : nat, is_finite (normal_variate gen_zero k) = true)
  /\ cos libm_annex_F zero = one
  /\ sin libm_annex_F zero = zero
  /\ moveParticle libm_annex_F (mkParticle zero zero zero one) zero
       (opp (literal 1 100000000)) (ParticleFilter zero zero (literal 1 20) gen_zero)
     = Normal (mkParticle zero zero TWO_PI one)
              (with_gen (ParticleFilter zero zero (literal 1 20) gen_zero)
                        (advance (advance gen_zero))).
Proof.
  assert (Hfin : forall k : nat, is_finite (normal_variate gen_zero k) = true)
    by (intro k; reflexivity).
  split; [exact Hfin|]. split; [reflexivity|]. split; [reflexivity|].
  exact (proj1 (proj2 (proj2
           (C8_wrapped_heading_reaches_TWO_PI libm_annex_F (literal 1 20) one
              gen_zero Hfin eq_refl eq_refl)))).
Defined.

(** ** State estimation *)




(** C6, as the code behaves.  On an empty population [estimateState] raises
    nothing: it divides the sums [0.0f] by the size 0, which gives NaN for
    both coordinates, hands two NaN to [atan2], and leaves the filter as it
    was. *)
Theorem C6_empty_population_estimate_is_NaN :
  forall (libm : Libm) (pf : ParticleFilter.t),
    particles_ pf = [] ->
    estimateState libm pf = Normal (nan, nan, atan2 libm nan nan) pf
    /\ is_nan (div zero (of_size 0)) = true.
Proof.
  intros libm pf Hempty. split; [|reflexivity].
  unfold estimateState. cbn [bind M_monad gets]. rewrite Hempty. reflexivity.
Qed.

Lemma C6_empty_population_estimate_is_NaN_witness :
  particles_ (pf_main gen_zero) = []
  /\ estimateState libm_annex_F (pf_main gen_zero)
     = Normal (nan, nan, nan) (pf_main gen_zero).
Proof.
  split; [reflexivity|].
  exact (proj1 (C6_empty_population_estimate_is_NaN
                  libm_annex_F (pf_main gen_zero) eq_refl)).
Defined.

(** ** Weighting *)

Lemma likelihood_loop_spec_binary32 :
  forall (libm : Libm) (sigma : float) (p : Particle)
         (measurements : list float) (landmarks : list Vector2f)
         (i : nat) (w : float),
    likelihood_loop libm (gauss_norm_of sigma) (mul (mul two sigma) sigma) p
                    measurements landmarks i w
    = if (length landmarks <=? length (skipn i measurements))%nat
      then Some (fold_left mul
                   (map (density libm sigma p)
                        (combine (skipn i measurements) landmarks))
                   w)
      else None.
Proof.
  intros libm sigma p ms lms; induction lms as [|lm lms IH]; intros i w.
  - cbn [likelihood_loop length Nat.leb]. rewrite combine_nil. reflexivity.
  - cbn [likelihood_loop].
    destruct (nth_error_skipn_head float i ms) as [Hnth Hskip].
    rewrite Hnth. destruct (skipn i ms) as [|m ms'] eqn:Hs; cbn [hd_error].
    + reflexivity.
    + rewrite IH, Hskip. cbn [tl length Nat.leb combine map fold_left].
      reflexivity.
Qed.

Lemma likelihood_loop_start_binary32 :
  forall (libm : Libm) (sigma : float) (p : Particle)
         (measurements : list float) (landmarks : list Vector2f),
    likelihood_loop libm (gauss_norm_of sigma) (mul (mul two sigma) sigma) p
                    measurements landmarks 0 one
    = likelihood libm sigma p measurements landmarks.
Proof.
  intros. rewrite likelihood_loop_spec_binary32. reflexivity.
Qed.

(** The outer loop gives every particle its likelihood and adds the
    likelihoods, in order, to the running total. *)
Lemma weight_loop_spec_binary32 :
  forall (libm : Libm) (sigma : float)
         (measurements : list float) (landmarks : list Vector2f)
         (ps : list Particle) (total : float),
    match weight_loop libm (gauss_norm_of sigma) (mul (mul two sigma) sigma)
                      measurements landmarks ps total with
    | Some (ps', total') =>
        exists Ls : list float,
          Forall2 (fun p L => likelihood libm sigma p measurements landmarks = Some L)
                  ps Ls
          /\ ps' = reweighted ps Ls
          /\ total' = fold_left add Ls total
    | None =>
        exists p, In p ps /\ likelihood libm sigma p measurements landmarks = None
    end.
Proof.
  intros libm sigma ms lms ps; induction ps as [|p ps IH]; intro total.
  - cbn. exists []. split; [constructor | split; reflexivity].
  - cbn [weight_loop]. cbn [bind option_monad].
    rewrite likelihood_loop_start_binary32.
    destruct (likelihood libm sigma p ms lms) as [L|] eqn:HL.
    2:{ exists p. split; [left; reflexivity | exact HL]. }
    cbn [weight].
    specialize (IH (add total L)).
    destruct (weight_loop libm (gauss_norm_of sigma) (mul (mul two sigma) sigma)
                          ms lms ps (add total L)) as [[ps' total']|].
    + destruct IH as (Ls & Hall & Hps & Htot).
      exists (L :: Ls). split; [|split].
      * constructor; assumption.
      * cbn. rewrite Hps. reflexivity.
      * rewrite Htot. reflexivity.
    + destruct IH as (q & Hin & Hq).
      exists q. split; [right; exact Hin | exact Hq].
Qed.

Lemma reweighted_weights_binary32 :
  forall (ps : list Particle) (ws : list float),
    length ps = length ws -> map weight (reweighted ps ws) = ws.
Proof.
  induction ps as [|p ps IH]; intros [|w ws] H; cbn in *; try congruence.
  f_equal. apply IH. congruence.
Qed.

Lemma normalize_reweighted_binary32 :
  forall (total : float) (ps : list Particle) (ws : list float),
    normalize total (reweighted ps ws)
    = reweighted ps (map (fun w => div w total) ws).
Proof.
  intros total; induction ps as [|p ps IH]; intros [|w ws]; cbn; try reflexivity.
  f_equal. apply IH.
Qed.

(** What [calculateWeights] does in binary32, in terms of the likelihoods. *)
Lemma calculateWeights_spec_binary32 :
  forall (libm : Libm) (ms : list float) (lms : list Vector2f)
         (pf : ParticleFilter.t),
    match calculateWeights libm ms lms pf with
    | Normal _ pf' =>
        exists Ls : list float,
          Forall2 (fun p L => likelihood libm (sigma_sense_ pf) p ms lms = Some L)
                  (particles_ pf) Ls
          /\ pf' = with_particles pf
                     (reweighted (particles_ pf)
                        (if ltb zero (total_of Ls)
                         then map (fun L => div L (total_of Ls)) Ls else Ls))
    | Throws _ _ => False
    | Undefined =>
        exists p, In p (particles_ pf)
                  /\ likelihood libm (sigma_sense_ pf) p ms lms = None
    end.
Proof.
  intros libm ms lms pf. unfold calculateWeights.
  pose proof (weight_loop_spec_binary32 libm (sigma_sense_ pf) ms lms
                (particles_ pf) zero) as H.
  destruct (weight_loop libm _ _ ms lms (particles_ pf) zero) as [[ps' total]|].
  - destruct H as (Ls & Hall & Hps & Htot).
    fold (total_of Ls) in Htot. subst ps' total.
    destruct (ltb zero (total_of Ls)) eqn:Hdec; exists Ls;
      (split; [exact Hall|]); rewrite Hdec.
    + rewrite normalize_reweighted_binary32. reflexivity.
    + reflexivity.
  - exact H.
Qed.

(** C2, as the code behaves.  When [calculateWeights] completes, every
    particle has a likelihood (the densities of its range residuals
    multiplied in binary32), only the weights have changed, and with [T] the
    likelihoods added in order to [0.0f]: if [T > 0] every weight is the
    particle's likelihood divided by [T], one rounded division each; if not
    (all likelihoods are zero, or [T] is NaN) every weight is the likelihood
    itself, undivided. *)
Theorem C2_weights_are_normalised_likelihoods :
  forall (libm : Libm) (pf pf' : ParticleFilter.t)
         (ms : list float) (lms : list Vector2f),
    calculateWeights libm ms lms pf = Normal tt pf' ->
    exists Ls : list float,
      Forall2 (fun p L => likelihood libm (sigma_sense_ pf) p ms lms = Some L)
              (particles_ pf) Ls
      /\ pf' = with_particles pf
                 (reweighted (particles_ pf) (map weight (particles_ pf')))
      /\ (ltb zero (total_of Ls) = true ->
          map weight (particles_ pf') = map (fun L => div L (total_of Ls)) Ls)
      /\ (ltb zero (total_of Ls) = false ->
          map weight (particles_ pf') = Ls).
Proof.
  intros libm pf pf' ms lms Hrun.
  pose proof (calculateWeights_spec_binary32 libm ms lms pf) as H.
  rewrite Hrun in H. destruct H as (Ls & Hall & Hpf').
  pose proof (Forall2_length_eq _ _ _ _ _ Hall) as Hlen.
  exists Ls. split; [exact Hall|].
  assert (Hws : map weight (particles_ pf')
                = if ltb zero (total_of Ls)
                  then map (fun L => div L (total_of Ls)) Ls else Ls).
  { rewrite Hpf'. cbn [particles_ with_particles].
    apply reweighted_weights_binary32.
    destruct (ltb zero (total_of Ls)); [now rewrite length_map | exact Hlen]. }
  split; [|split].
  - rewrite Hws. exact Hpf'.
  - intro Hpos. rewrite Hws, Hpos. reflexivity.
  - intro Hnpos. rewrite Hws, Hnpos. reflexivity.
Qed.

Lemma Forall2_two :
  forall (A B : Type) (P : A -> B -> Prop) (a1 a2 : A) (l : list B),
    Forall2 P [a1; a2] l -> exists b1 b2, l = [b1; b2] /\ P a1 b1 /\ P a2 b2.
Proof.
  intros A B P a1 a2 l H.
  inversion H as [|x1 b1 l1 l1' H1 H']; subst.
  inversion H' as [|x2 b2 l2 l2' H2 H'']; subst.
  inversion H''; subst. exists b1, b2. auto.
Qed.

(** Both cases occur.  Two particles on the landmark, measured at range 0:
    each likelihood is the density at 0, the total is positive and both
    weights become 0.5.  Two particles 2^70 away: the squared distance
    overflows, the residual is infinite, [exp] yields 0, the total is 0 and
    the weights stay 0. *)
Lemma C2_weights_are_normalised_likelihoods_witness :
  (exists Ls : list float,
      calculateWeights libm_annex_F [zero] [(zero, zero)] pf_pair
      = Normal tt (with_particles pf_pair
                     (reweighted (particles_ pf_pair) [literal 1 2; literal 1 2]))
      /\ Forall2 (fun p L => likelihood libm_annex_F (sigma_sense_ pf_pair) p
                               [zero] [(zero, zero)] = Some L)
                 (particles_ pf_pair) Ls
      /\ ltb zero (total_of Ls) = true
      /\ map (fun L => div L (total_of Ls)) Ls = [literal 1 2; literal 1 2])
  /\ (exists Ls : list float,
      calculateWeights libm_annex_F [zero] [(zero, zero)] pf_far
      = Normal tt (with_particles pf_far
                     (reweighted (particles_ pf_far) [zero; zero]))
      /\ Forall2 (fun p L => likelihood libm_annex_F (sigma_sense_ pf_far) p
                               [zero] [(zero, zero)] = Some L)
                 (particles_ pf_far) Ls
      /\ ltb zero (total_of Ls) = false
      /\ Ls = [zero; zero]).
Proof.
  split.
  - assert (Hrun : calculateWeights libm_annex_F [zero] [(zero, zero)] pf_pair
                   = Normal tt (with_particles pf_pair
                        (reweighted (particles_ pf_pair)
                                    [literal 1 2; literal 1 2])))
      by (vm_compute; reflexivity).
    destruct (C2_weights_are_normalised_likelihoods
                libm_annex_F pf_pair _ [zero] [(zero, zero)] Hrun)
      as (Ls & Hall & _ & _ & _).
    exists Ls. split; [exact Hrun|]. split; [exact Hall|].
    apply Forall2_two in Hall. destruct Hall as (b1 & b2 & -> & H1 & H2).
    vm_compute in H1, H2. injection H1 as <-. injection H2 as <-.
    split; vm_compute; reflexivity.
  - assert (Hrun : calculateWeights libm_annex_F [zero] [(zero, zero)] pf_far
                   = Normal tt (with_particles pf_far
                        (reweighted (particles_ pf_far) [zero; zero])))
      by (vm_compute; reflexivity).
    destruct (C2_weights_are_normalised_likelihoods
                libm_annex_F pf_far _ [zero] [(zero, zero)] Hrun)
      as (Ls & Hall & _ & _ & _).
    exists Ls. split; [exact Hrun|]. split; [exact Hall|].
    apply Forall2_two in Hall. destruct Hall as (b1 & b2 & -> & H1 & H2).
    vm_compute in H1, H2. injection H1 as <-. injection H2 as <-.
    split; vm_compute; reflexivity.
Defined.

Lemma Forall2_repeat :
  forall (A B : Type) (P : A -> B -> Prop) (a : A) (b : B) (n : nat),
    P a b -> Forall2 P (repeat a n) (repeat b n).
Proof.
  intros A B P a b n H; induction n as [|n IH]; cbn; constructor; assumption.
Qed.

Lemma Rsum_map_repeat :
  forall (A : Type) (f : A -> R) (a : A) (n : nat),
    Rsum (map f (repeat a n)) = INR n * f a.
Proof.
  intros A f a n; induction n as [|n IH].
  - cbn. ring.
  - rewrite S_INR. cbn [repeat map]. unfold Rsum in *. cbn [fold_right].
    rewrite IH. ring.
Qed.

Lemma Forall2_repeat_inv :
  forall (A B : Type) (f : A -> option B) (a : A) (b : B) (n : nat) (l : list B),
    f a = Some b ->
    Forall2 (fun p L => f p = Some L) (repeat a n) l ->
    l = repeat b n.
Proof.
  intros A B f a b n; induction n as [|n IH]; intros l Hf H;
    inversion H as [|a' b' l1 l2 Hb Hrest]; subst; cbn [repeat].
  - reflexivity.
  - f_equal; [congruence | apply IH; assumption].
Qed.

(** The weighting of 2000 particles on a landmark measured at range 0, in
    the filter of [main], with any library in which [exp(-0) = 1]: every
    particle receives the weight 5.000081e-4. *)
Lemma weights_of_a_crowd :
  forall libm : Libm,
    exp libm (S754_zero true) = one ->
    calculateWeights libm [zero] [(zero, zero)] pf_crowd
    = Normal tt
        (with_particles pf_crowd
           (repeat (mkParticle zero zero zero (S754_finite false 8590074 (-34)))
                   2000)).
Proof.
  intros libm Hexp.
  assert (HL : likelihood libm (sigma_sense_ pf_crowd)
                 (mkParticle zero zero zero (literal 1 2000))
                 [zero] [(zero, zero)]
               = Some (S754_finite false 16732852 (-21))).
  { unfold likelihood, density.
    cbn [length Nat.leb combine map fold_left fst snd].
    set (arg := div _ _). vm_compute in arg. subst arg.
    rewrite Hexp. vm_compute. reflexivity. }
  pose proof (calculateWeights_spec_binary32 libm [zero] [(zero, zero)] pf_crowd)
    as H.
  destruct (calculateWeights libm [zero] [(zero, zero)] pf_crowd) as [[] pf'| |].
  - destruct H as (Ls & Hall & ->).
    apply (Forall2_repeat_inv Particle float
             (fun p => likelihood libm (sigma_sense_ pf_crowd) p
                                  [zero] [(zero, zero)])
             _ _ 2000 Ls HL) in Hall.
    subst Ls.
    assert (HT : total_of (@repeat float (S754_finite false 16732852 (-21)) 2000)
                 = S754_finite false 16340411 (-10))
      by (vm_compute; reflexivity).
    rewrite HT. vm_compute. reflexivity.
  - contradiction.
  - destruct H as (p & _ & Hnone). unfold likelihood in Hnone.
    cbn [length Nat.leb] in Hnone. discriminate.
Qed.

(** C2 as stated fails: the weights need not sum to 1 within 1e-5.  In the
    filter of [main] (deviation of the sensor 0.05f), 2000 particles on a
    landmark measured at range 0 all have the same likelihood, 7.978846; its
    2000 additions round to the total 15957.433, and every weight becomes
    5.000081e-4.  The total is positive, and the weights sum to 1.0000162;
    added up in binary32 they give 1.0000243. *)
Lemma C2_counterexample :
  let g := S754_finite false 16732852 (-21) in
  let w := S754_finite false 8590074 (-34) in
  let crowd := repeat (mkParticle zero zero zero w) 2000 in
  calculateWeights libm_annex_F [zero] [(zero, zero)] pf_crowd
  = Normal tt (with_particles pf_crowd crowd)
  /\ Forall2 (fun p L => likelihood libm_annex_F (sigma_sense_ pf_crowd) p
                           [zero] [(zero, zero)] = Some L)
             (particles_ pf_crowd) (repeat g 2000)
  /\ ltb zero (total_of (repeat g 2000)) = true
  /\ w = div g (total_of (repeat g 2000))
  /\ 1 + 1e-5 < Rsum (map (fun p => to_R (weight p)) crowd)
  /\ 1 + 1e-5 < to_R (total_of (map weight crowd)).
Proof.
  intros g w crowd.
  split; [exact (weights_of_a_crowd libm_annex_F eq_refl)|].
  split; [apply Forall2_repeat; vm_compute; reflexivity|].
  split; [vm_compute; reflexivity|].
  split; [vm_compute; reflexivity|].
  split.
  - unfold crowd. rewrite Rsum_map_repeat.
    replace (INR 2000) with 2000 by (rewrite INR_IZR_INZ; reflexivity).
    cbn [weight]. unfold w, to_R, cond_Zopp, powerRZ.
    change (Pos.to_nat 34) with 34%nat. lra.
  - replace (total_of (map weight crowd))
      with (S754_finite false 8388812 (-23)) by (vm_compute; reflexivity).
    unfold to_R, cond_Zopp, powerRZ.
    change (Pos.to_nat 23) with 23%nat. lra.
Qed.

End Binary32Properties.

(** * Further properties *)

(** ** The robot *)

Lemma Robot_rotate_unfold :
  forall (rotation : R) (r : Robot.t),
    Robot.rotate rotation r
    = Robot.mk (Robot.x_ r) (Robot.y_ r)
        (wrap (Robot.theta_ r
               + (rotation + fst (draw_normal (Robot.dist_rot_ r) (Robot.gen_ r)))))
        (Robot.sigma_pos_ r) (Robot.sigma_rot_ r) (Robot.sigma_sense_ r)
        (Robot.dist_pos_ r) (Robot.dist_rot_ r) (Robot.dist_sense_ r)
        (advance (Robot.gen_ r)).
Proof. reflexivity. Qed.

Lemma sense_loop_spec :
  forall (lms : list Vector2f) (acc : list R) (r : Robot.t),
    let g := Robot.gen_ r in
    let d := Robot.dist_sense_ r in
    exists readings : list R,
      Robot.sense_loop lms acc r
      = (acc ++ readings,
         Robot.with_gen r (mk_gen (normal_variate g) (discrete_variate g)
                                  (length lms + drawn g)))
      /\ length readings = length lms
      /\ forall (i : nat) (lm : Vector2f),
          nth_error lms i = Some lm ->
          nth_error readings i
          = Some (sqrt ((fst lm - Robot.x_ r) * (fst lm - Robot.x_ r)
                        + (snd lm - Robot.y_ r) * (snd lm - Robot.y_ r))
                  + (normal_variate g (i + drawn g) * stddev d + mean d)).
Proof.
  induction lms as [|lm lms IH]; intros acc r g d.
  - exists []. split; [|split].
    + cbn. rewrite app_nil_r. subst g. destruct r as [? ? ? ? ? ? ? ? ? [? ? ?]].
      reflexivity.
    + reflexivity.
    + intros [|i] lm' H; discriminate.
  - cbn [Robot.sense_loop draw_normal].
    destruct (IH (acc ++ [sqrt ((fst lm - Robot.x_ r) * (fst lm - Robot.x_ r)
                                + (snd lm - Robot.y_ r) * (snd lm - Robot.y_ r))
                          + (normal_variate g (drawn g) * stddev d + mean d)])
                 (Robot.with_gen r (advance g)))
      as (readings & Hrun & Hlen & Hnth).
    eexists (_ :: readings). split; [|split].
    + subst g d. rewrite Hrun. rewrite <- app_assoc. cbn [app].
      f_equal. unfold Robot.with_gen.
      cbn [Robot.x_ Robot.y_ Robot.theta_ Robot.sigma_pos_ Robot.sigma_rot_
           Robot.sigma_sense_ Robot.dist_pos_ Robot.dist_rot_ Robot.dist_sense_
           Robot.gen_ advance normal_variate discrete_variate drawn length].
      do 2 f_equal. lia.
    + cbn. now rewrite Hlen.
    + intros [|i] lm' H; cbn [nth_error] in *.
      * injection H as <-. reflexivity.
      * rewrite (Hnth i lm' H).
        cbn [Robot.with_gen Robot.x_ Robot.y_ Robot.gen_ Robot.dist_sense_
             advance normal_variate drawn].
        fold g d. do 5 f_equal. lia.
Qed.

(** [Robot::senseAllLandmarks] returns one reading per landmark, in the
    order of the landmarks: the distance from the robot to the landmark plus
    the next noise draw.  The robot itself is untouched but for its
    generator, advanced by one draw per landmark. *)
Theorem Robot_senseAllLandmarks_readings :
  forall (lms : list Vector2f) (r : Robot.t),
    let g := Robot.gen_ r in
    let d := Robot.dist_sense_ r in
    let (measurements, r') := Robot.senseAllLandmarks lms r in
    length measurements = length lms
    /\ (forall (i : nat) (lm : Vector2f),
          nth_error lms i = Some lm ->
          nth_error measurements i
          = Some (sqrt ((fst lm - Robot.x_ r) * (fst lm - Robot.x_ r)
                        + (snd lm - Robot.y_ r) * (snd lm - Robot.y_ r))
                  + (normal_variate g (i + drawn g) * stddev d + mean d)))
    /\ r' = Robot.with_gen r (mk_gen (normal_variate g) (discrete_variate g)
                                     (length lms + drawn g)).
Proof.
  intros lms r g d. unfold Robot.senseAllLandmarks.
  destruct (sense_loop_spec lms [] r) as (readings & Hrun & Hlen & Hnth).
  rewrite Hrun. cbn [app]. repeat split; assumption.
Qed.

Lemma senseAllLandmarks_length :
  forall (lms : list Vector2f) (r : Robot.t),
    length (fst (Robot.senseAllLandmarks lms r)) = length lms.
Proof.
  intros lms r. unfold Robot.senseAllLandmarks.
  destruct (sense_loop_spec lms [] r) as (readings & Hrun & Hlen & _).
  rewrite Hrun. cbn [fst app]. exact Hlen.
Qed.

(** The readings the robot takes of a landmark list can always be fed to a
    filter step over the same landmarks: the step returns normally and keeps
    the number of particles, as long as the discrete distribution keeps its
    contract. *)
Theorem sensed_measurements_are_accepted :
  forall (lms : list Vector2f) (r : Robot.t) (distance rotation : R)
         (pf : ParticleFilter.t),
    discrete_contract (mk_discrete (map weight (particles_ pf))) (gen_ pf) ->
    exists (v : Vector3f) (pf' : ParticleFilter.t),
      updateAndEstimate distance rotation
        (fst (Robot.senseAllLandmarks lms r)) lms pf = Normal v pf'
      /\ length (particles_ pf') = length (particles_ pf).
Proof.
  intros lms r distance rotation pf Hcontract.
  apply updateAndEstimate_size; [exact Hcontract|].
  rewrite senseAllLandmarks_length. lia.
Qed.

Lemma sensed_measurements_are_accepted_witness :
  discrete_contract (mk_discrete (map weight (particles_ pf_three))) (gen_ pf_three)
  /\ exists (v : Vector3f) (pf' : ParticleFilter.t),
      updateAndEstimate 1 0
        (fst (Robot.senseAllLandmarks (Map.getLandmarks Map.Map) robot_main))
        (Map.getLandmarks Map.Map) pf_three = Normal v pf'
      /\ length (particles_ pf') = length (particles_ pf_three).
Proof.
  assert (Hcontract : discrete_contract
                        (mk_discrete (map weight (particles_ pf_three)))
                        (gen_ pf_three))
    by (intro k; cbn; lia).
  split; [exact Hcontract|].
  exact (sensed_measurements_are_accepted (Map.getLandmarks Map.Map) robot_main
           1 0 pf_three Hcontract).
Defined.

(** ** Prediction, particle by particle *)

Lemma moveParticle_moved :
  forall (p : Particle) (distance rotation : R) (pf : ParticleFilter.t),
    moveParticle p distance rotation pf
    = Normal (moved pf distance rotation (drawn (gen_ pf)) p)
             (with_gen pf (advance (advance (gen_ pf)))).
Proof. reflexivity. Qed.

(** A particle at the robot's pose, moved with the robot's distributions and
    the robot's variates, ends at the pose the robot reaches by
    [moveForward] followed by [rotate]: the filter's motion model is the
    robot's. *)
Theorem particle_follows_robot_motion :
  forall (r : Robot.t) (pf : ParticleFilter.t) (p : Particle)
         (distance rotation : R),
    pose p = (Robot.x_ r, Robot.y_ r, Robot.theta_ r) ->
    dist_pos_ pf = Robot.dist_pos_ r ->
    dist_rot_ pf = Robot.dist_rot_ r ->
    gen_ pf = Robot.gen_ r ->
    let r' := Robot.rotate rotation (Robot.moveForward distance r) in
    exists (p' : Particle) (pf' : ParticleFilter.t),
      moveParticle p distance rotation pf = Normal p' pf'
      /\ pose p' = (Robot.x_ r', Robot.y_ r', Robot.theta_ r')
      /\ weight p' = weight p
      /\ gen_ pf' = Robot.gen_ r'.
Proof.
  intros r pf [px py pt pw] distance rotation Hpose Hpos Hrot Hgen r'.
  unfold pose in Hpose. cbn [x y theta] in Hpose.
  injection Hpose as -> -> ->.
  rewrite moveParticle_moved. do 2 eexists. split; [reflexivity|].
  subst r'. rewrite Robot_rotate_unfold.
  unfold moved, pose, Robot.moveForward, draw_normal.
  cbn [x y theta weight Robot.x_ Robot.y_ Robot.theta_ Robot.gen_
       Robot.dist_rot_ fst gen_ with_gen advance normal_variate drawn].
  rewrite Hpos, Hrot, Hgen. repeat split.
Qed.

Lemma particle_follows_robot_motion_witness :
  exists (p' : Particle) (pf' : ParticleFilter.t),
    moveParticle (mkParticle 1 1 0 1) 1 0 pf_fresh = Normal p' pf'
    /\ pose p'
       = (Robot.x_ (Robot.rotate 0 (Robot.moveForward 1 robot_main)),
          Robot.y_ (Robot.rotate 0 (Robot.moveForward 1 robot_main)),
          Robot.theta_ (Robot.rotate 0 (Robot.moveForward 1 robot_main)))
    /\ weight p' = 1
    /\ gen_ pf' = Robot.gen_ (Robot.rotate 0 (Robot.moveForward 1 robot_main)).
Proof.
  exact (particle_follows_robot_motion robot_main pf_fresh (mkParticle 1 1 0 1)
           1 0 eq_refl eq_refl eq_refl eq_refl).
Defined.

Lemma for_each_moved :
  forall (distance rotation : R) (ps : list Particle) (pf : ParticleFilter.t),
    let g := gen_ pf in
    exists ps' : list Particle,
      for_each (fun p => moveParticle p distance rotation) ps pf
      = Normal ps'
          (with_gen pf (mk_gen (normal_variate g) (discrete_variate g)
                               (2 * length ps + drawn g)))
      /\ length ps' = length ps
      /\ forall (i : nat) (p : Particle),
          nth_error ps i = Some p ->
          nth_error ps' i
          = Some (moved pf distance rotation (2 * i + drawn g) p).
Proof.
  intros distance rotation ps; induction ps as [|p ps IH]; intros pf g.
  - exists []. split; [|split].
    + subst g. destruct pf as [? ? ? ? ? ? ? [? ? ?]]. reflexivity.
    + reflexivity.
    + intros [|i] q H; discriminate.
  - destruct (IH (with_gen pf (advance (advance g))))
      as (ps' & Hrun & Hlen & Hnth).
    exists (moved pf distance rotation (drawn g) p :: ps').
    split; [|split].
    + cbn [for_each].
      rewrite (bind_normal _ _ _ _ _ _ _ (moveParticle_moved p distance rotation pf)).
      fold g. rewrite (bind_normal _ _ _ _ _ _ _ Hrun).
      unfold with_gen.
      cbn [ret M_monad gen_ advance normal_variate discrete_variate drawn
           sigma_pos_ sigma_rot_ sigma_sense_ dist_pos_ dist_rot_ dist_sense_
           particles_ length].
      do 3 f_equal. lia.
    + cbn; now rewrite Hlen.
    + intros [|i] q H; cbn [nth_error] in *.
      * injection H as <-. reflexivity.
      * rewrite (Hnth i q H). f_equal. unfold moved.
        cbn [with_gen gen_ dist_pos_ dist_rot_ advance normal_variate drawn].
        fold g.
        replace (2 * i + S (S (drawn g)))%nat with (2 * S i + drawn g)%nat by lia.
        reflexivity.
Qed.

(** [updateMotion] moves particle number [i] with the variates number
    [2 i] and [2 i + 1] after the cursor: every particle has two draws of its
    own.  Weights are untouched ([moved] copies them) and the generator
    advances by two draws per particle. *)
Theorem updateMotion_draws_per_particle :
  forall (distance rotation : R) (pf : ParticleFilter.t),
    let g := gen_ pf in
    exists ps' : list Particle,
      updateMotion distance rotation pf
      = Normal tt
          (with_particles
             (with_gen pf (mk_gen (normal_variate g) (discrete_variate g)
                                  (2 * length (particles_ pf) + drawn g)))
             ps')
      /\ length ps' = length (particles_ pf)
      /\ map weight ps' = map weight (particles_ pf)
      /\ forall (i : nat) (p : Particle),
          nth_error (particles_ pf) i = Some p ->
          nth_error ps' i
          = Some (moved pf distance rotation (2 * i + drawn g) p).
Proof.
  intros distance rotation pf g.
  destruct (for_each_moved distance rotation (particles_ pf) pf)
    as (ps' & Hrun & Hlen & Hnth).
  exists ps'. split; [|split; [|split]]; try assumption.
  - unfold updateMotion. rewrite bind_gets.
    rewrite (bind_normal _ _ _ _ _ _ _ Hrun). reflexivity.
  - apply nth_error_ext. intro i. rewrite !nth_error_map.
    destruct (nth_error (particles_ pf) i) as [p|] eqn:Hp.
    + rewrite (Hnth i p Hp). reflexivity.
    + apply nth_error_None in Hp.
      assert (Hnone : nth_error ps' i = None)
        by (apply nth_error_None; lia).
      rewrite Hnone. reflexivity.
Qed.

(** ** Weighting, beyond normalisation *)

Lemma likelihood_none_iff :
  forall (sigma : R) (p : Particle) (lms : list Vector2f) (ms : list R),
    likelihood sigma p ms lms = None <-> (length ms < length lms)%nat.
Proof.
  intros sigma p lms; induction lms as [|lm lms IH]; intros ms.
  - cbn. split; [discriminate | lia].
  - destruct ms as [|m ms]; cbn [likelihood length].
    + split; [lia | reflexivity].
    + specialize (IH ms).
      destruct (likelihood sigma p ms lms) as [L|]; cbn [option_map].
      * split; [discriminate|]. intro H.
        assert (Hno : Some L = None) by (apply IH; lia). discriminate.
      * split; [|reflexivity]. intros _.
        assert (length ms < length lms)%nat by (apply IH; reflexivity). lia.
Qed.

(** [calculateWeights] never throws, and its one undefined case is the read
    past the end of the measurements: a population that is not empty
    together with fewer measurements than landmarks. *)
Theorem calculateWeights_undefined_iff :
  forall (ms : list R) (lms : list Vector2f) (pf : ParticleFilter.t),
    (calculateWeights ms lms pf = Undefined
     <-> particles_ pf <> [] /\ (length ms < length lms)%nat)
    /\ forall (e : Exception) (pf' : ParticleFilter.t),
         calculateWeights ms lms pf <> Throws e pf'.
Proof.
  intros ms lms pf.
  pose proof (calculateWeights_spec ms lms pf) as Hspec.
  destruct (calculateWeights ms lms pf) as [[] pf'|e pf'|] eqn:Hrun.
  - destruct Hspec as (Ls & Hall & _). split; [|discriminate].
    split; [discriminate|]. intros [Hne Hlen]. exfalso.
    inversion Hall as [Hnil|p L ps Ls' HL _ Hps]; [congruence|].
    assert (Hnone : likelihood (sigma_sense_ pf) p ms lms = None)
      by (apply likelihood_none_iff; exact Hlen).
    congruence.
  - contradiction.
  - destruct Hspec as (p & Hin & Hnone). split; [|discriminate].
    split; [|reflexivity]. intros _. split.
    + intro Hnil. rewrite Hnil in Hin. exact Hin.
    + apply (likelihood_none_iff (sigma_sense_ pf) p). exact Hnone.
Qed.

Section WeightsFromPoses.

Variable gauss_norm denom : R.
Variable ms : list R.
Variable lms : list Vector2f.

Lemma likelihood_loop_pose :
  forall (p q : Particle) (landmarks : list Vector2f) (i : nat) (w : R),
    x p = x q -> y p = y q ->
    likelihood_loop gauss_norm denom p ms landmarks i w
    = likelihood_loop gauss_norm denom q ms landmarks i w.
Proof.
  intros p q landmarks; induction landmarks as [|lm rest IH]; intros i w Hx Hy.
  - reflexivity.
  - cbn [likelihood_loop]. rewrite Hx, Hy.
    destruct (nth_error ms i); [apply IH; assumption | reflexivity].
Qed.

Lemma weight_loop_reweighted :
  forall (ps : list Particle) (ws : list R) (total : R),
    length ws = length ps ->
    weight_loop gauss_norm denom ms lms (reweighted ps ws) total
    = weight_loop gauss_norm denom ms lms ps total.
Proof.
  induction ps as [|p ps IH]; intros [|w ws] total Hlen;
    try discriminate; [reflexivity|].
  unfold reweighted. cbn [combine map fst snd]. fold (reweighted ps ws).
  cbn [weight_loop bind option_monad].
  rewrite (likelihood_loop_pose (mkParticle (x p) (y p) (theta p) w) p
             lms 0 1 eq_refl eq_refl).
  destruct (likelihood_loop gauss_norm denom p ms lms 0 1) as [L|];
    [|reflexivity].
  cbn [x y theta weight].
  rewrite IH by (cbn in Hlen; lia). reflexivity.
Qed.

End WeightsFromPoses.

(** [calculateWeights] overwrites: the weights the particles had before play
    no part in the result, which is the same whatever they were; in
    particular weighting twice with the same readings is weighting once. *)
Theorem calculateWeights_ignores_previous_weights :
  forall (ms : list R) (lms : list Vector2f) (pf : ParticleFilter.t),
    (forall ws : list R,
        length ws = length (particles_ pf) ->
        calculateWeights ms lms
          (with_particles pf (reweighted (particles_ pf) ws))
        = calculateWeights ms lms pf)
    /\ (calculateWeights ms lms ;; calculateWeights ms lms) pf
       = calculateWeights ms lms pf.
Proof.
  intros ms lms pf.
  assert (Hfirst : forall ws : list R,
             length ws = length (particles_ pf) ->
             calculateWeights ms lms
               (with_particles pf (reweighted (particles_ pf) ws))
             = calculateWeights ms lms pf).
  { intros ws Hlen. unfold calculateWeights.
    cbn [particles_ with_particles sigma_sense_].
    rewrite weight_loop_reweighted by exact Hlen.
    destruct (weight_loop _ _ ms lms (particles_ pf) 0) as [[ps total]|];
      [|reflexivity].
    destruct (Rlt_dec 0 total); reflexivity. }
  split; [exact Hfirst|].
  pose proof (calculateWeights_spec ms lms pf) as Hspec.
  destruct (calculateWeights ms lms pf) as [[] pf'|e pf'|] eqn:Hrun.
  - rewrite (bind_normal _ _ _ _ _ _ _ Hrun).
    destruct Hspec as (Ls & Hall & ->).
    rewrite Hfirst; [reflexivity|].
    destruct (Rlt_dec 0 (Rsum Ls)); rewrite ?length_map;
      symmetry; exact (Forall2_length_eq _ _ _ _ _ Hall).
  - contradiction.
  - cbn. rewrite Hrun. reflexivity.
Qed.













(** ** The effective sample size *)

Lemma total_weight_squared_sum :
  forall ps : list Particle,
    total_weight_squared ps = Rsum (map (fun p => weight p * weight p) ps).
Proof.
  intro ps. unfold total_weight_squared, Rsum.
  assert (Hacc : forall (l : list Particle) (a : R),
             fold_left (fun acc p => acc + weight p * weight p) l a
             = a + fold_right Rplus 0 (map (fun p => weight p * weight p) l)).
  { induction l as [|p l IH]; intro a; cbn [fold_left map fold_right].
    - ring.
    - rewrite IH. ring. }
  rewrite Hacc. ring.
Qed.

Lemma total_weight_squared_nonneg :
  forall ps : list Particle, 0 <= total_weight_squared ps.
Proof.
  intro ps. rewrite total_weight_squared_sum.
  induction ps as [|p ps IH]; unfold Rsum in *; cbn [map fold_right].
  - lra.
  - pose proof (Rle_0_sqr (weight p)) as Hsq. unfold Rsqr in Hsq. lra.
Qed.

Lemma Neff_pos_capped :
  forall ps : list Particle, 0 < Neff ps <= 1000000.
Proof.
  intro ps. pose proof (total_weight_squared_nonneg ps) as Hs2.
  unfold Neff. split.
  - apply Rdiv_lt_0_compat; lra.
  - apply (Rmult_le_reg_r (total_weight_squared ps + 1e-6)); [lra|].
    unfold Rdiv. rewrite Rmult_assoc, Rinv_l by lra. lra.
Qed.


(** The effective sample size is positive, and half of 0 or 1, in unsigned
    integers, is 0: an empty population and a single particle are never
    resampled. *)
Theorem tiny_population_is_never_resampled :
  forall pf : ParticleFilter.t,
    (length (particles_ pf) <= 1)%nat ->
    resampleIfNeeded pf = Normal tt pf.
Proof.
  intros pf Htiny. destruct (Neff_pos_capped (particles_ pf)) as [Hpos _].
  rewrite resampleIfNeeded_unfold.
  destruct (Rlt_dec _ _) as [Hlt|_]; [|reflexivity]. exfalso.
  assert (Hhalf : (length (particles_ pf) / 2 = 0)%nat).
  { destruct (particles_ pf) as [|p [|q rest]]; cbn in *; [reflexivity| reflexivity | lia]. }
  rewrite Hhalf in Hlt. simpl INR in Hlt. lra.
Qed.

Lemma tiny_population_is_never_resampled_witness :
  (length (particles_ pf_half) <= 1)%nat
  /\ resampleIfNeeded pf_half = Normal tt pf_half.
Proof.
  split.
  - cbn; lia.
  - apply (tiny_population_is_never_resampled pf_half). cbn; lia.
Defined.


(** ** Resampling, draw by draw *)

Lemma resample_loop_picks :
  forall (d : discrete_distribution) (k : nat) (acc : list Particle)
         (pf : ParticleFilter.t),
    let g := gen_ pf in
    (k = 0%nat \/
     forall j : nat, (discrete_variate g j < length (particles_ pf))%nat) ->
    exists picks : list Particle,
      resample_loop d k acc pf
      = Normal (acc ++ picks)
          (with_gen pf (mk_gen (normal_variate g) (discrete_variate g)
                               (k + drawn g)))
      /\ length picks = k
      /\ forall i : nat,
          (i < k)%nat ->
          nth_error picks i
          = nth_error (particles_ pf) (discrete_variate g (i + drawn g)).
Proof.
  intros d k; induction k as [|k IH]; intros acc pf g Hdraw.
  - exists []. rewrite app_nil_r. split; [|split].
    + subst g. destruct pf as [? ? ? ? ? ? ? [? ? ?]]. reflexivity.
    + reflexivity.
    + intros i Hi. lia.
  - destruct Hdraw as [Hk|Hdraw]; [discriminate|].
    pose proof (Hdraw (drawn g)) as Hin.
    destruct (nth_error (particles_ pf) (discrete_variate g (drawn g)))
      as [p|] eqn:Hnth.
    2:{ apply nth_error_None in Hnth. lia. }
    destruct (IH (acc ++ [p]) (with_gen pf (advance g)))
      as (rest & Hrun & Hlen & Hpicks).
    { right. exact Hdraw. }
    exists (p :: rest). split; [|split].
    + cbn [resample_loop]. rewrite bind_sample_index, bind_gets.
      cbn [particles_ with_gen]. fold g. rewrite Hnth, Hrun, <- app_assoc.
      unfold with_gen.
      cbn [gen_ advance normal_variate discrete_variate drawn
           sigma_pos_ sigma_rot_ sigma_sense_ dist_pos_ dist_rot_ dist_sense_
           particles_ app].
      do 3 f_equal. lia.
    + cbn; now rewrite Hlen.
    + intros [|i] Hi; cbn [nth_error].
      * symmetry. exact Hnth.
      * rewrite (Hpicks i) by lia.
        cbn [particles_ with_gen gen_ advance discrete_variate drawn]. fold g.
        replace (i + S (drawn g))%nat with (S i + drawn g)%nat by lia.
        reflexivity.
Qed.

(** [resampleParticles] fills position [i] of the new population with the
    particle the [i]-th drawn index points at, weight included, and advances
    the generator by one draw per particle; nothing else changes. *)
Theorem resampleParticles_copies_drawn_indices :
  forall pf : ParticleFilter.t,
    let g := gen_ pf in
    discrete_contract (mk_discrete (map weight (particles_ pf))) g ->
    exists ps' : list Particle,
      resampleParticles pf
      = Normal tt
          (with_particles
             (with_gen pf (mk_gen (normal_variate g) (discrete_variate g)
                                  (length (particles_ pf) + drawn g)))
             ps')
      /\ length ps' = length (particles_ pf)
      /\ forall i : nat,
          (i < length (particles_ pf))%nat ->
          nth_error ps' i
          = nth_error (particles_ pf) (discrete_variate g (i + drawn g)).
Proof.
  intros pf g Hcontract.
  destruct (resample_loop_picks (mk_discrete (map weight (particles_ pf)))
              (length (particles_ pf)) [] pf)
    as (ps' & Hrun & Hlen & Hpicks).
  { destruct (particles_ pf) as [|p ps] eqn:Hps; [left; reflexivity|].
    right. intro j. specialize (Hcontract j). subst g.
    cbn [discrete_weights] in Hcontract. rewrite length_map in Hcontract.
    cbn [length] in *. cbv zeta. lia. }
  exists ps'. split; [|split; assumption].
  unfold resampleParticles. rewrite bind_gets.
  rewrite (bind_normal _ _ _ _ _ _ _ Hrun). reflexivity.
Qed.

Lemma resampleParticles_copies_drawn_indices_witness :
  discrete_contract (mk_discrete (map weight (particles_ pf_three))) (gen_ pf_three)
  /\ exists ps' : list Particle,
      resampleParticles pf_three
      = Normal tt
          (with_particles
             (with_gen pf_three
                (mk_gen (normal_variate (gen_ pf_three))
                        (discrete_variate (gen_ pf_three))
                        (length (particles_ pf_three) + drawn (gen_ pf_three))))
             ps')
      /\ length ps' = length (particles_ pf_three)
      /\ forall i : nat,
          (i < length (particles_ pf_three))%nat ->
          nth_error ps' i
          = nth_error (particles_ pf_three)
              (discrete_variate (gen_ pf_three) (i + drawn (gen_ pf_three))).
Proof.
  assert (Hcontract : discrete_contract
                        (mk_discrete (map weight (particles_ pf_three)))
                        (gen_ pf_three))
    by (intro k; cbn; lia).
  split; [exact Hcontract|].
  exact (resampleParticles_copies_drawn_indices pf_three Hcontract).
Defined.

(** ** The estimate *)

Lemma estimateState_unfold :
  forall pf : ParticleFilter.t,
    estimateState pf
    = Normal (fst (fst (fst (sums (particles_ pf)))) / INR (length (particles_ pf)),
              snd (fst (fst (sums (particles_ pf)))) / INR (length (particles_ pf)),
              atan2 (snd (fst (sums (particles_ pf))) / INR (length (particles_ pf)))
                    (snd (sums (particles_ pf)) / INR (length (particles_ pf))))
             pf.
Proof.
  intro pf. unfold estimateState. rewrite bind_gets.
  destruct (sums (particles_ pf)) as [[[sum_x sum_y] sum_sin] sum_cos].
  reflexivity.
Qed.

Lemma sums_poses :
  forall ps qs : list Particle,
    map pose ps = map pose qs -> sums ps = sums qs /\ length ps = length qs.
Proof.
  intros ps qs Hposes. unfold sums.
  assert (Hacc : forall (l m : list Particle) (acc : R * R * R * R),
             map pose l = map pose m ->
             fold_left
               (fun acc p =>
                  let '(sum_x, sum_y, sum_sin, sum_cos) := acc in
                  (sum_x + x p, sum_y + y p,
                   sum_sin + sin (theta p), sum_cos + cos (theta p))) l acc
             = fold_left
                 (fun acc p =>
                    let '(sum_x, sum_y, sum_sin, sum_cos) := acc in
                    (sum_x + x p, sum_y + y p,
                     sum_sin + sin (theta p), sum_cos + cos (theta p))) m acc).
  { induction l as [|p l IH]; intros [|q m] acc H; cbn [map] in H;
      try discriminate; [reflexivity|].
    unfold pose at 1 3 in H. injection H as Hx Hy Ht Hrest.
    cbn [fold_left]. rewrite Hx, Hy, Ht. apply IH. exact Hrest. }
  split; [apply Hacc; exact Hposes|].
  rewrite <- (length_map pose ps), <- (length_map pose qs), Hposes. reflexivity.
Qed.

(** The estimate is an unweighted mean: two filters whose particles have
    the same poses in the same order get the same estimate, whatever the
    weights. *)
Theorem estimateState_ignores_weights :
  forall pf1 pf2 : ParticleFilter.t,
    map pose (particles_ pf1) = map pose (particles_ pf2) ->
    exists v : Vector3f,
      estimateState pf1 = Normal v pf1 /\ estimateState pf2 = Normal v pf2.
Proof.
  intros pf1 pf2 Hposes.
  destruct (sums_poses _ _ Hposes) as [Hsums Hlen].
  eexists. split; [apply estimateState_unfold|].
  rewrite estimateState_unfold, Hsums, Hlen. reflexivity.
Qed.

Lemma estimateState_ignores_weights_witness :
  map pose (particles_ pf_three)
  = map pose (particles_ (with_particles pf_three
                            (reweighted (particles_ pf_three) [0; 0; 1])))
  /\ exists v : Vector3f,
      estimateState pf_three = Normal v pf_three
      /\ estimateState (with_particles pf_three
                          (reweighted (particles_ pf_three) [0; 0; 1]))
         = Normal v (with_particles pf_three
                       (reweighted (particles_ pf_three) [0; 0; 1])).
Proof.
  split; [reflexivity|].
  apply (estimateState_ignores_weights pf_three). reflexivity.
Defined.

(** ** The whole step *)

(** What [updateAndEstimate] returns is the estimate of the population it
    leaves behind: calling [estimateState] right after the step gives the
    same vector and changes nothing. *)
Theorem updateAndEstimate_returns_final_estimate :
  forall (distance rotation : R) (ms : list R) (lms : list Vector2f)
         (pf pf' : ParticleFilter.t) (v : Vector3f),
    updateAndEstimate distance rotation ms lms pf = Normal v pf' ->
    estimateState pf' = Normal v pf'.
Proof.
  intros distance rotation ms lms pf pf' v Hrun.
  unfold updateAndEstimate in Hrun. cbn [bind M_monad] in Hrun.
  destruct (updateMotion distance rotation pf) as [[] pf1| |]; try discriminate.
  destruct (calculateWeights ms lms pf1) as [[] pf2| |]; try discriminate.
  destruct (resampleIfNeeded pf2) as [[] pf3| |]; try discriminate.
  destruct (estimateState_returns pf3) as [v3 Hest]. rewrite Hest in Hrun.
  cbn [ret M_monad] in Hrun. injection Hrun as <- <-. exact Hest.
Qed.

Lemma updateAndEstimate_returns_final_estimate_witness :
  exists (v : Vector3f) (pf' : ParticleFilter.t),
    updateAndEstimate 1 0 [5] [(3, 4)] pf_three = Normal v pf'
    /\ estimateState pf' = Normal v pf'.
Proof.
  destruct (updateAndEstimate_size 1 0 [5] [(3, 4)] pf_three)
    as (v & pf' & Hrun & _); [intro k; cbn; lia | cbn; lia|].
  exists v, pf'. split; [exact Hrun|].
  exact (updateAndEstimate_returns_final_estimate 1 0 [5] [(3, 4)] pf_three pf' v Hrun).
Defined.

(** ** The driver *)

Lemma resampleIfNeeded_keeps :
  forall pf : ParticleFilter.t,
    discrete_contract (mk_discrete (map weight (particles_ pf))) (gen_ pf) ->
    exists pf' : ParticleFilter.t,
      resampleIfNeeded pf = Normal tt pf'
      /\ length (particles_ pf') = length (particles_ pf)
      /\ discrete_variate (gen_ pf') = discrete_variate (gen_ pf).
Proof.
  intros pf Hcontract. rewrite resampleIfNeeded_unfold.
  destruct (Rlt_dec _ _).
  - destruct (resampleParticles_spec pf Hcontract)
      as (ps' & g & Hrun & Hlen & _ & Htape).
    eexists; split; [exact Hrun|]. split; [exact Hlen | exact Htape].
  - exists pf; repeat split.
Qed.

(** One filter step, given a reading for every landmark, returns and keeps
    both the number of particles and the indices the generator will
    deliver. *)
Lemma updateAndEstimate_keeps :
  forall (distance rotation : R) (ms : list R) (lms : list Vector2f)
         (pf : ParticleFilter.t),
    discrete_contract (mk_discrete (map weight (particles_ pf))) (gen_ pf) ->
    (length lms <= length ms)%nat ->
    exists (v : Vector3f) (pf' : ParticleFilter.t),
      updateAndEstimate distance rotation ms lms pf = Normal v pf'
      /\ length (particles_ pf') = length (particles_ pf)
      /\ discrete_variate (gen_ pf') = discrete_variate (gen_ pf).
Proof.
  intros distance rotation ms lms pf Hcontract Hlen.
  destruct (updateMotion_spec distance rotation pf)
    as (ps1 & g1 & Hmove & Hlen1 & _ & Htape1).
  destruct (calculateWeights_returns ms lms
              (with_particles (with_gen pf g1) ps1) Hlen) as [pf2 Hweigh].
  destruct (calculateWeights_size _ _ _ _ Hweigh) as [Hlen2 Hgen2].
  cbn [particles_ with_particles gen_ with_gen] in Hlen2, Hgen2.
  destruct (resampleIfNeeded_keeps pf2) as (pf3 & Hres & Hlen3 & Htape3).
  { intro k. specialize (Hcontract k).
    cbn [discrete_weights] in *. rewrite length_map in *.
    rewrite Hgen2, Htape1, Hlen2, Hlen1. exact Hcontract. }
  destruct (estimateState_returns pf3) as [v Hest].
  exists v, pf3. split; [|split; congruence].
  unfold updateAndEstimate.
  rewrite (bind_normal _ _ _ _ _ _ _ Hmove), (bind_normal _ _ _ _ _ _ _ Hweigh),
    (bind_normal _ _ _ _ _ _ _ Hres), (bind_normal _ _ _ _ _ _ _ Hest).
  reflexivity.
Qed.

Lemma initializeParticles_keeps_indices :
  forall (rx ry rt : R) (n : Z) (pf : ParticleFilter.t),
  exists pf' : ParticleFilter.t,
    initializeParticles rx ry rt n pf = Normal tt pf'
    /\ length (particles_ pf') = (length (particles_ pf) + Z.to_nat n)%nat
    /\ discrete_variate (gen_ pf') = discrete_variate (gen_ pf).
Proof.
  intros rx ry rt n pf. unfold initializeParticles. rewrite !bind_gets.
  generalize (mk_normal rx (sigma_pos_ pf)) (mk_normal ry (sigma_pos_ pf))
             (mk_normal rt (sigma_rot_ pf)).
  intros nx ny nt. generalize (Z.to_nat n) as k. intro k. revert pf.
  induction k as [|k IH]; intro pf.
  - exists pf. repeat split. cbn. lia.
  - rewrite initialize_loop_step. cbv zeta.
    match goal with
    | |- context [initialize_loop nx ny nt n k ?pf1] =>
        destruct (IH pf1) as (pf' & Hrun & Hlen & Htape)
    end.
    exists pf'. split; [exact Hrun|].
    cbn [particles_ gen_ discrete_variate] in Hlen, Htape.
    rewrite length_app in Hlen. cbn [length] in Hlen.
    split; [lia | exact Htape].
Qed.

Section DriverInvariant.

Variable size : nat.
Variable indices : nat -> nat.
Hypothesis indices_in_range : forall k : nat, (indices k < size)%nat.
Variable world : Map.t.

(** What the loops of [main] keep true of the filter. *)
Let steady (pf : ParticleFilter.t) : Prop :=
  length (particles_ pf) = size /\ discrete_variate (gen_ pf) = indices.

Lemma steady_contract :
  forall pf : ParticleFilter.t,
    steady pf ->
    discrete_contract (mk_discrete (map weight (particles_ pf))) (gen_ pf).
Proof.
  intros pf [Hsize Htape] k. cbn [discrete_weights].
  rewrite length_map, Hsize, Htape. pose proof (indices_in_range k). lia.
Qed.

Lemma main_observe_steady :
  forall (distance rotation : R) (printed : list Printed) (robot : Robot.t)
         (pf : ParticleFilter.t),
    steady pf ->
    exists (line : Printed) (robot' : Robot.t) (pf' : ParticleFilter.t),
      main_observe distance rotation world printed robot pf
      = Exit (printed ++ [line]) robot' pf'
      /\ steady pf'.
Proof.
  intros distance rotation printed robot pf Hsteady.
  unfold main_observe.
  pose proof (senseAllLandmarks_length (Map.getLandmarks world) robot) as Hlen.
  destruct (Robot.senseAllLandmarks (Map.getLandmarks world) robot) as [ms robot'].
  cbn [fst] in Hlen.
  destruct (updateAndEstimate_keeps distance rotation ms (Map.getLandmarks world) pf
              (steady_contract pf Hsteady))
    as (v & pf' & Hrun & Hsize & Htape); [lia|].
  rewrite Hrun. do 3 eexists. split; [reflexivity|].
  destruct Hsteady as [Hs Ht]. split; congruence.
Qed.

Lemma main_forward_loop_steady :
  forall (forward_distance : R) (steps : nat) (printed : list Printed)
         (robot : Robot.t) (pf : ParticleFilter.t),
    steady pf ->
    exists (printed' : list Printed) (robot' : Robot.t) (pf' : ParticleFilter.t),
      main_forward_loop forward_distance world steps printed robot pf
      = Exit printed' robot' pf'
      /\ length printed' = (length printed + steps)%nat
      /\ steady pf'.
Proof.
  intros forward_distance steps; induction steps as [|steps IH];
    intros printed robot pf Hsteady.
  - exists printed, robot, pf. repeat split; [cbn; lia | apply Hsteady ..].
  - cbn [main_forward_loop].
    destruct (main_observe_steady forward_distance 0 printed
                (Robot.moveForward forward_distance robot) pf Hsteady)
      as (line & robot1 & pf1 & Hobs & Hsteady1).
    rewrite Hobs.
    destruct (IH (printed ++ [line]) robot1 pf1 Hsteady1)
      as (printed' & robot' & pf' & Hrun & Hlen & Hsteady').
    exists printed', robot', pf'. split; [exact Hrun|]. split; [|exact Hsteady'].
    rewrite Hlen, length_app. cbn. lia.
Qed.

Lemma main_sides_steady :
  forall (forward_distance turn_angle : R) (side_lengths : list Z)
         (printed : list Printed) (robot : Robot.t) (pf : ParticleFilter.t),
    steady pf ->
    exists (printed' : list Printed) (robot' : Robot.t) (pf' : ParticleFilter.t),
      main_sides forward_distance turn_angle world side_lengths printed robot pf
      = Exit printed' robot' pf'
      /\ length printed'
         = (length printed
            + list_sum (map (fun s => S (Z.to_nat s)) side_lengths))%nat
      /\ steady pf'.
Proof.
  intros forward_distance turn_angle side_lengths;
    induction side_lengths as [|s rest IH]; intros printed robot pf Hsteady.
  - exists printed, robot, pf. repeat split; [cbn; lia | apply Hsteady ..].
  - cbn [main_sides].
    destruct (main_forward_loop_steady forward_distance (Z.to_nat s)
                printed robot pf Hsteady)
      as (printed1 & robot1 & pf1 & Hrun1 & Hlen1 & Hsteady1).
    rewrite Hrun1.
    destruct (main_observe_steady 0 turn_angle printed1
                (Robot.rotate turn_angle robot1) pf1 Hsteady1)
      as (line & robot2 & pf2 & Hobs & Hsteady2).
    rewrite Hobs.
    destruct (IH (printed1 ++ [line]) robot2 pf2 Hsteady2)
      as (printed' & robot' & pf' & Hrun & Hlen & Hsteady').
    exists printed', robot', pf'. split; [exact Hrun|]. split; [|exact Hsteady'].
    rewrite Hlen, length_app, Hlen1. unfold list_sum.
    cbn [map fold_right length]. lia.
Qed.

End DriverInvariant.

(** [main] runs to completion whenever the filter's discrete distribution
    keeps its contract over the 500 particles: no call throws, no vector is
    read out of range (every reading vector has one entry per landmark), 36
    pairs of lines are printed, 9 for each side of the square, and the
    filter still holds 500 particles at the end. *)
Theorem main_runs_to_completion :
  forall robot_gen filter_gen : Gen,
    (forall k : nat, (discrete_variate filter_gen k < 500)%nat) ->
    exists (printed : list Printed) (robot : Robot.t) (pf : ParticleFilter.t),
      main robot_gen filter_gen = Exit printed robot pf
      /\ length printed = 36%nat
      /\ length (particles_ pf) = 500%nat.
Proof.
  intros robot_gen filter_gen Hindices. unfold main. cbv zeta.
  match goal with
  | |- context [initializeParticles ?a ?b ?c ?n ?pf0] =>
      destruct (initializeParticles_keeps_indices a b c n pf0)
        as (pf1 & Hinit & Hsize & Htape)
  end.
  rewrite Hinit.
  cbn [particles_ gen_ ParticleFilter length Nat.add] in Hsize, Htape.
  match goal with
  | |- context [main_sides ?fd ?ta ?w ?sides ?pr ?rb pf1] =>
      destruct (main_sides_steady 500 (discrete_variate filter_gen) Hindices
                  w fd ta sides pr rb pf1)
        as (printed & robot & pf & Hrun & Hlen & Hsteady)
  end.
  { split; [exact Hsize | exact Htape]. }
  exists printed, robot, pf. split; [exact Hrun|].
  split; [exact Hlen | apply Hsteady].
Qed.

Lemma main_runs_to_completion_witness :
  (forall k : nat, (discrete_variate gen_zero k < 500)%nat)
  /\ exists (printed : list Printed) (robot : Robot.t) (pf : ParticleFilter.t),
      main gen_zero gen_zero = Exit printed robot pf
      /\ length printed = 36%nat
      /\ length (particles_ pf) = 500%nat.
Proof.
  assert (Hindices : forall k : nat, (discrete_variate gen_zero k < 500)%nat)
    by (intro k; cbn; lia).
  split; [exact Hindices|].
  exact (main_runs_to_completion gen_zero gen_zero Hindices).
Defined.

(** ** Degenerate weights, in binary32 *)

Section Binary32Degenerate.

Import Binary32 Binary32.ParticleFilter.

(** A float multiplied by itself is NaN or carries the sign plus. *)
Lemma square_is_not_negative :
  forall d : float,
    match mul d d with
    | S754_nan | S754_zero false | S754_infinity false
    | S754_finite false _ _ => True
    | _ => False
    end.
Proof.
  intros [s|s| |s m e]; try (destruct s; exact I); try exact I.
  unfold mul, SFmul.
  replace (xorb s s) with false by (destruct s; reflexivity).
  unfold binary_round_aux.
  destruct (shr_fexp prec emax (Z.pos (m * m)) (e + e) loc_Exact) as [mrs' e'].
  destruct (shr_fexp prec emax
              (round_nearest_even (shr_m mrs') (loc_of_shr_record mrs')) e'
              loc_Exact) as [mrs'' e''].
  destruct (shr_m mrs'') as [|q|q]; try exact I.
  destruct (e'' <=? emax - prec)%Z; exact I.
Qed.

Lemma mul_nan_r : forall a : float, mul a nan = nan.
Proof. intros [s|s| |s m e]; reflexivity. Qed.

Lemma add_nan_r : forall a : float, add a nan = nan.
Proof. intros [s|s| |s m e]; reflexivity. Qed.

(** With a sensor deviation of [+0] the normalisation constant is
    [1 / sqrt 0], plus infinity, and the exponent is a quotient by 0: NaN
    for a zero square, minus infinity otherwise.  Either way the density is
    NaN. *)
Lemma density_without_deviation :
  forall (libm : Libm) (p : Particle) (ml : float * Vector2f),
    exp libm nan = nan ->
    exp libm (S754_infinity true) = zero ->
    density libm zero p ml = nan.
Proof.
  intros libm p ml Hnan Hinf. unfold density.
  change (gauss_norm_of zero) with (S754_infinity false).
  change (mul (mul two zero) zero) with zero.
  set (diff := sub (fst ml) (expected_range p (snd ml))).
  pose proof (square_is_not_negative diff) as Hsq.
  destruct (mul diff diff) as [[]|[]| |[] m e]; try contradiction;
    cbn [opp SFopp negb div SFdiv zero xorb];
    fold nan; fold zero; rewrite ?Hnan, ?Hinf; reflexivity.
Qed.

Lemma fold_left_mul_nan :
  forall (ds : list float) (w : float),
    Forall (fun d => d = nan) ds -> ds <> [] -> fold_left mul ds w = nan.
Proof.
  assert (Hstay : forall ds, Forall (fun d => d = nan) ds ->
                             fold_left mul ds nan = nan).
  { induction 1 as [|d ds Hd _ IH]; [reflexivity|].
    cbn [fold_left]. rewrite Hd. exact IH. }
  intros ds w Hall Hne. destruct Hall as [|d ds Hd Hall]; [congruence|].
  cbn [fold_left]. rewrite Hd, mul_nan_r. apply Hstay, Hall.
Qed.

Lemma likelihood_without_deviation :
  forall (libm : Libm) (p : Particle) (ms : list float) (lms : list Vector2f)
         (L : float),
    exp libm nan = nan ->
    exp libm (S754_infinity true) = zero ->
    lms <> [] ->
    likelihood libm zero p ms lms = Some L ->
    L = nan.
Proof.
  intros libm p ms lms L Hnan Hinf Hne HL. unfold likelihood in HL.
  destruct (length lms <=? length ms)%nat eqn:Hlen; [|discriminate].
  injection HL as <-. apply fold_left_mul_nan.
  - apply Forall_forall. intros d Hd. apply in_map_iff in Hd.
    destruct Hd as (ml & <- & _). apply density_without_deviation; assumption.
  - destruct lms as [|lm lms]; [congruence|].
    destruct ms as [|m ms]; [discriminate|]. discriminate.
Qed.

Lemma total_of_nan :
  forall Ls : list float,
    Forall (fun L => L = nan) Ls -> ltb zero (total_of Ls) = false.
Proof.
  assert (Hstay : forall Ls, Forall (fun L => L = nan) Ls ->
                             fold_left add Ls nan = nan).
  { induction 1 as [|L Ls HL _ IH]; [reflexivity|].
    cbn [fold_left]. rewrite HL. exact IH. }
  intros Ls Hall. unfold total_of. destruct Hall as [|L Ls HL Hall].
  - reflexivity.
  - cbn [fold_left]. rewrite HL. change (add zero nan) with nan.
    rewrite (Hstay Ls Hall). reflexivity.
Qed.

Lemma reweighted_all_nan :
  forall (ps : list Particle) (Ls : list float),
    length ps = length Ls ->
    Forall (fun L => L = nan) Ls ->
    reweighted ps Ls = all_weighted nan ps.
Proof.
  induction ps as [|p ps IH]; intros [|L Ls] Hlen Hall; cbn in *;
    try congruence.
  inversion Hall as [|L' Ls' HL Hall']; subst.
  f_equal. apply IH; [congruence | assumption].
Qed.

(** With a sensor deviation of 0 and at least one landmark (each with a
    measurement), [calculateWeights] turns every weight into NaN: the total
    is NaN or the empty sum, the test [total_weight > 0] fails, nothing is
    divided, and the poses are untouched. *)
Theorem calculateWeights_without_sensor_deviation :
  forall (libm : Libm) (pf : ParticleFilter.t)
         (ms : list float) (lms : list Vector2f),
    sigma_sense_ pf = zero ->
    lms <> [] ->
    (length lms <= length ms)%nat ->
    exp libm nan = nan ->
    exp libm (S754_infinity true) = zero ->
    calculateWeights libm ms lms pf
    = Normal tt (with_particles pf (all_weighted nan (particles_ pf))).
Proof.
  intros libm pf ms lms Hsigma Hne Hlen Hnan Hinf.
  pose proof (calculateWeights_spec_binary32 libm ms lms pf) as H.
  destruct (calculateWeights libm ms lms pf) as [[] pf'| |].
  - destruct H as (Ls & Hall & ->). rewrite Hsigma in Hall.
    assert (HLs : Forall (fun L => L = nan) Ls).
    { clear - Hall Hnan Hinf Hne.
      induction Hall as [|p L ps Ls HL _ IH]; constructor; [|exact IH].
      exact (likelihood_without_deviation libm p ms lms L Hnan Hinf Hne HL). }
    rewrite (total_of_nan Ls HLs).
    rewrite (reweighted_all_nan _ _ (Forall2_length_eq _ _ _ _ _ Hall) HLs).
    reflexivity.
  - contradiction.
  - destruct H as (p & _ & Hnone). unfold likelihood in Hnone.
    apply Nat.leb_le in Hlen. rewrite Hlen in Hnone. discriminate.
Qed.

Lemma calculateWeights_without_sensor_deviation_witness :
  sigma_sense_ pf_sharp = zero
  /\ calculateWeights libm_annex_F [zero] [(zero, zero)] pf_sharp
     = Normal tt (with_particles pf_sharp
                    [mkParticle zero zero zero nan; mkParticle one zero zero nan]).
Proof.
  split; [reflexivity|].
  apply (calculateWeights_without_sensor_deviation
           libm_annex_F pf_sharp [zero] [(zero, zero)]).
  - reflexivity.
  - discriminate.
  - cbn; lia.
  - reflexivity.
  - reflexivity.
Defined.

Lemma total_weight_squared_nan :
  forall (ps : list Particle) (acc : float),
    acc = nan \/ Exists (fun p => weight p = nan) ps ->
    fold_left (fun acc p => add acc (mul (weight p) (weight p))) ps acc = nan.
Proof.
  induction ps as [|p ps IH]; intros acc [Hacc|Hex].
  - exact Hacc.
  - inversion Hex.
  - cbn [fold_left]. apply IH. left. rewrite Hacc. reflexivity.
  - cbn [fold_left]. apply IH.
    inversion Hex as [p' ps' Hw|p' ps' Hrest]; subst.
    + left. rewrite Hw. change (mul nan nan) with nan. apply add_nan_r.
    + right. exact Hrest.
Qed.

(** A population in which some weight is NaN is never resampled: the sum of
    the squared weights is NaN, so is [Neff], and the comparison
    [Neff < size / 2] is false. *)
Theorem NaN_weight_prevents_resampling :
  forall pf : ParticleFilter.t,
    Exists (fun p => weight p = nan) (particles_ pf) ->
    Neff (particles_ pf) = nan
    /\ resampleIfNeeded pf = Normal tt pf.
Proof.
  intros pf Hex.
  assert (HN : Neff (particles_ pf) = nan).
  { unfold Neff, total_weight_squared.
    rewrite (total_weight_squared_nan _ zero (or_intror Hex)). reflexivity. }
  split; [exact HN|].
  unfold resampleIfNeeded. cbn [bind M_monad gets]. rewrite HN. reflexivity.
Qed.

Lemma NaN_weight_prevents_resampling_witness :
  let pf := with_particles pf_sharp
              [mkParticle zero zero zero nan; mkParticle one zero zero nan] in
  Exists (fun p => weight p = nan) (particles_ pf)
  /\ resampleIfNeeded pf = Normal tt pf.
Proof.
  intro pf.
  assert (Hex : Exists (fun p => weight p = nan) (particles_ pf))
    by (left; reflexivity).
  split; [exact Hex|].
  exact (proj2 (NaN_weight_prevents_resampling pf Hex)).
Defined.

Lemma total_weight_squared_zero :
  forall ps : list Particle,
    Forall (fun p => weight p = zero) ps ->
    fold_left (fun acc p => add acc (mul (weight p) (weight p))) ps zero = zero.
Proof.
  induction 1 as [|p ps Hw _ IH]; [reflexivity|].
  cbn [fold_left]. rewrite Hw. exact IH.
Qed.

(** When every weight is zero, as after a weighting pass in which all
    likelihoods underflowed, [Neff] is exactly 1000000 whatever the size of
    the population: [1.0f / (0 + 1e-6f)] rounds to that integer. *)
Theorem zero_weights_effective_sample_size :
  forall ps : list Particle,
    Forall (fun p => weight p = zero) ps ->
    Neff ps = of_Z 1000000.
Proof.
  intros ps Hall. unfold Neff, total_weight_squared.
  rewrite (total_weight_squared_zero ps Hall). reflexivity.
Qed.

Lemma zero_weights_effective_sample_size_witness :
  let ps := reweighted (particles_ pf_far) [zero; zero] in
  Forall (fun p => weight p = zero) ps
  /\ Neff ps = of_Z 1000000
  /\ resampleIfNeeded (with_particles pf_far ps)
     = Normal tt (with_particles pf_far ps).
Proof.
  intro ps.
  assert (Hall : Forall (fun p => weight p = zero) ps)
    by (repeat constructor).
  split; [exact Hall|]. split.
  - exact (zero_weights_effective_sample_size ps Hall).
  - vm_compute. reflexivity.
Defined.

End Binary32Degenerate.
